(** * Height index, index repairer, outbound message queues and worker pool

    A shallow embedding of the height-index store
    ([vms/components/block_height_index]), of the resumable index repairer
    ([indexer.heightIndexer]), of the live index update of the proposer VM,
    of the two per-peer outbound message queues ([network/peer]), of the
    [releaseWorker] path of the bounded worker pool ([utils.ThreadPool]),
    of the pool of locks ([utils.LockPool]) and of the health client's
    [AwaitHealthy], followed by the properties established about them. *)

From Stdlib Require Import ZArith Lia List Bool.
From stdpp Require Import base option list gmap strings.

Open Scope Z_scope.

(** ** Bytes, identifiers, errors *)

(** A Go [byte] is a [Z] in [0, 256); a [[]byte] is a list of them. *)
Definition byte_of (v : Z) : Z := Z.land v 255.

(** [[]byte("...")]: the bytes of a string literal. *)
Definition bytes_of_string (s : string) : list Z :=
  map (fun b => Z.of_N (Byte.to_N b)) (String.list_byte_of_string s).

(** [make([]byte, n)] *)
Definition make_bytes (n : nat) : list Z := repeat 0 n.

(** The builtin [copy(dst, src)]: overwrites the first
    [min (len dst) (len src)] cells of [dst]. *)
Definition copy (dst src : list Z) : list Z :=
  take (length dst) src ++ drop (length src) dst.

(** [binary.BigEndian.PutUint64(b, v)] on a slice of at least 8 bytes. *)
Definition PutUint64 (b : list Z) (v : Z) : list Z :=
  <[7%nat := byte_of v]>
  (<[6%nat := byte_of (Z.shiftr v 8)]>
  (<[5%nat := byte_of (Z.shiftr v 16)]>
  (<[4%nat := byte_of (Z.shiftr v 24)]>
  (<[3%nat := byte_of (Z.shiftr v 32)]>
  (<[2%nat := byte_of (Z.shiftr v 40)]>
  (<[1%nat := byte_of (Z.shiftr v 48)]>
  (<[0%nat := byte_of (Z.shiftr v 56)]> b))))))).

(** [binary.BigEndian.Uint64(b)] on a slice of at least 8 bytes. *)
Definition Uint64 (b : list Z) : Z :=
  fold_left (fun acc x => Z.lor (Z.shiftl acc 8) x) (take 8 b) 0.

(** [wrappers.LongLen] *)
Definition LongLen : nat := 8.

Module HeightIndexKeys.

Definition heightPrefix : list Z := bytes_of_string "heightkey".

Definition GetEntryKey (height : Z) : list Z :=
  let heightBytes := make_bytes LongLen in
  let heightBytes := PutUint64 heightBytes height in
  let key := make_bytes (length heightPrefix) in
  let key := copy key heightPrefix in
  key ++ heightBytes.

Definition GetForkKey : list Z :=
  let preForkPrefix := bytes_of_string "preForkKey" in
  preForkPrefix.

Definition GetCheckpointKey : list Z :=
  let checkpointPrefix := bytes_of_string "checkpoint" in
  checkpointPrefix.

(** The layout as the persistence format words it: eight base-256 digits
    of the height, most significant first. *)
Definition big_endian_uint64 (h : Z) : list Z :=
  map (fun i => (h / 256 ^ (7 - Z.of_nat i)) mod 256) (seq 0 8).

(** Reading eight base-256 digits back, most significant first. *)
Definition big_endian_value (bs : list Z) : Z :=
  fold_left (fun acc x => acc * 256 + x) bs 0.

End HeightIndexKeys.

(** Go errors that the modelled code tells apart. [database.ErrNotFound] is
    the sentinel the code switches on; the others reach [default:] arms. *)
Inductive error : Type :=
| ErrNotFound
| ErrClosed
| ErrWrongLength
| ErrServer (code : Z).

(** A Go [(T, error)] result. A bare [error] result is an [option error],
    [None] being [nil]. *)
Inductive result (A : Type) : Type :=
| Ok (a : A)
| Err (e : error).
Arguments Ok {A} a.
Arguments Err {A} e.

(** Modelled from the spec: a block identifier ([ids.ID], not under src)
    is 32 bytes; [id[:]] is the list itself, [ids.Empty] the zero
    identifier. *)
Definition ID : Type := list Z.
Definition IDLen : nat := 32.
Definition ids_Empty : ID := repeat 0 IDLen.

(** Modelled from the spec: [ids.ToID] accepts exactly 32 bytes. *)
Definition ToID (bytes : list Z) : result ID :=
  if (length bytes =? IDLen)%nat then Ok bytes else Err ErrWrongLength.

(** ** The key-value store *)

Module Database.

(** Modelled from the spec: the underlying key-value store (the
    [database] package is an external collaborator): get, put, delete and
    write batches with a not-found sentinel. A store that has been
    [closed] answers every operation with the storage error [ErrClosed]
    and changes nothing. *)
Record t : Type := mk {
  data : gmap (list Z) (list Z);
  closed : bool
}.

(** Modelled from the spec: [Get] answers the value or the not-found
    sentinel. *)
Definition Get (db : t) (key : list Z) : result (list Z) :=
  if closed db then Err ErrClosed
  else
    match data db !! key with
    | Some v => Ok v
    | None => Err ErrNotFound
    end.

(** Modelled from the spec: [Put] overwrites silently. *)
Definition Put (db : t) (key value : list Z) : t * option error :=
  if closed db then (db, Some ErrClosed)
  else (mk (<[key := value]> (data db)) false, None).

(** Modelled from the spec: [Delete] removes the key, present or not. *)
Definition Delete (db : t) (key : list Z) : t * option error :=
  if closed db then (db, Some ErrClosed)
  else (mk (delete key (data db)) false, None).

(** Modelled from the spec: committing the enclosing versioned database
    ([vm.db.Commit], not under src); only its error result is kept. *)
Definition Commit (db : t) : option error :=
  if closed db then Some ErrClosed else None.

(** Modelled from the spec: [database.PackUInt64], the big-endian
    [uint64] under which the fork height is stored. *)
Definition PackUInt64 (v : Z) : list Z := PutUint64 (make_bytes LongLen) v.

(** Modelled from the spec: [database.GetUInt64]. *)
Definition GetUInt64 (db : t) (key : list Z) : result Z :=
  match Get db key with
  | Ok b => if (length b =? LongLen)%nat then Ok (Uint64 b) else Err ErrWrongLength
  | Err e => Err e
  end.

(** Modelled from the spec: [database.PutUInt64]. *)
Definition PutUInt64 (db : t) (key : list Z) (v : Z) : t * option error :=
  Put db key (PackUInt64 v).

End Database.

Module Batch.

Inductive op : Type :=
| OpPut (key value : list Z)
| OpDelete (key : list Z).

(** Modelled from the spec: a write batch of the store: operations staged
    in order, the byte size of what is staged, and an atomic [Write]. *)
Record t : Type := mk {
  writes : list op;
  size : Z
}.

Definition empty : t := mk [] 0.

(** Modelled from the spec: staging a put or a delete appends it and adds
    the bytes it carries to the size of the batch. *)
Definition Put (db : Database.t) (b : t) (key value : list Z) : t * option error :=
  if Database.closed db then (b, Some ErrClosed)
  else
    (mk (writes b ++ [OpPut key value])
        (size b + Z.of_nat (length key) + Z.of_nat (length value)), None).

Definition Delete (db : Database.t) (b : t) (key : list Z) : t * option error :=
  if Database.closed db then (b, Some ErrClosed)
  else (mk (writes b ++ [OpDelete key]) (size b + Z.of_nat (length key)), None).

Definition Size (b : t) : Z := size b.

Definition apply (m : gmap (list Z) (list Z)) (o : op) : gmap (list Z) (list Z) :=
  match o with
  | OpPut k v => <[k := v]> m
  | OpDelete k => delete k m
  end.

(** Modelled from the spec: [Write] applies the staged operations in
    order, atomically; it leaves the batch as it is, only [Reset] empties
    it. *)
Definition Write (db : Database.t) (b : t) : Database.t * option error :=
  if Database.closed db then (db, Some ErrClosed)
  else (Database.mk (fold_left apply (writes b) (Database.data db)) false, None).

Definition Reset (b : t) : t := empty.

End Batch.

(** ** The LRU cache *)

Module LRU.

(** Modelled from the spec: a bounded cache evicting the least recently
    used entry ([cache.LRU] is not under src). Entries are kept most
    recently used first. *)
Record t : Type := mk {
  Size : nat;
  entries : list (list Z * ID)
}.

Fixpoint find (key : list Z) (l : list (list Z * ID)) : option ID :=
  match l with
  | [] => None
  | (k, v) :: l' => if decide (k = key) then Some v else find key l'
  end.

Definition remove (key : list Z) (l : list (list Z * ID)) : list (list Z * ID) :=
  filter (fun kv => kv.1 <> key) l.

Definition Get (c : t) (key : list Z) : option ID * t :=
  match find key (entries c) with
  | Some v => (Some v, mk (Size c) ((key, v) :: remove key (entries c)))
  | None => (None, c)
  end.

Definition Put (c : t) (key : list Z) (value : ID) : t :=
  mk (Size c) (take (Size c) ((key, value) :: remove key (entries c))).

Definition Evict (c : t) (key : list Z) : t :=
  mk (Size c) (remove key (entries c)).

Definition Flush (c : t) : t := mk (Size c) [].

End LRU.

(** ** The height index ([blockheightindex.index]) *)

Module HeightIndex.
Import HeightIndexKeys.

Definition cacheSize : nat := Z.to_nat 8192.

Record index : Type := mk {
  blkHeightsCache : LRU.t;
  db : Database.t
}.

Definition New (d : Database.t) : index := mk (LRU.mk cacheSize []) d.

Definition GetBlockIDAtHeight (hi : index) (height : Z) : result ID * index :=
  let key := GetEntryKey height in
  match LRU.Get (blkHeightsCache hi) key with
  | (Some res, c) => (Ok res, mk c (db hi))
  | (None, c) =>
      match Database.Get (db hi) key with
      | Ok bytes =>
          match ToID bytes with
          | Ok res => (Ok res, mk (LRU.Put c key res) (db hi))
          | Err e => (Err e, mk c (db hi))
          end
      | Err ErrNotFound => (Err ErrNotFound, mk c (db hi))
      | Err e => (Err e, mk c (db hi))
      end
  end.

Definition GetForkHeight (hi : index) : result Z :=
  match Database.GetUInt64 (db hi) GetForkKey with
  | Ok height => Ok height
  | Err ErrNotFound => Err ErrNotFound
  | Err e => Err e
  end.

Definition SetBlockIDAtHeight (hi : index) (height : Z) (blkID : ID) : index * option error :=
  let key := GetEntryKey height in
  let c := LRU.Put (blkHeightsCache hi) key blkID in
  let '(d, err) := Database.Put (db hi) key blkID in
  (mk c d, err).

Definition DeleteBlockIDAtHeight (hi : index) (height : Z) : index * option error :=
  let key := GetEntryKey height in
  let c := LRU.Evict (blkHeightsCache hi) key in
  let '(d, err) := Database.Delete (db hi) key in
  (mk c d, err).

Definition SetForkHeight (hi : index) (height : Z) : index * option error :=
  let '(d, err) := Database.PutUInt64 (db hi) GetForkKey height in
  (mk (blkHeightsCache hi) d, err).

Definition DeleteForkHeight (hi : index) : index * option error :=
  let '(d, err) := Database.Delete (db hi) GetForkKey in
  (mk (blkHeightsCache hi) d, err).

Definition ClearCache (hi : index) : index :=
  mk (LRU.Flush (blkHeightsCache hi)) (db hi).

Definition NewBatch (hi : index) : Batch.t := Batch.empty.

Definition SetCheckpoint (hi : index) (blkID : ID) : index * option error :=
  let '(d, err) := Database.Put (db hi) GetCheckpointKey blkID in
  (mk (blkHeightsCache hi) d, err).

Definition GetCheckpoint (hi : index) : result ID :=
  match Database.Get (db hi) GetCheckpointKey with
  | Ok bytes => ToID bytes
  | Err ErrNotFound => Err ErrNotFound
  | Err e => Err e
  end.

Definition DeleteCheckpoint (hi : index) : index * option error :=
  let '(d, err) := Database.Delete (db hi) GetCheckpointKey in
  (mk (blkHeightsCache hi) d, err).

End HeightIndex.

(** ** Logging *)

Module Logging.

Inductive level : Type := Fatal | Error | Warn | Info | Debug.

(** Modelled from the spec: the leveled logger ([utils/logging] is not
    under src). A line keeps its level and its format string. A failed
    [AssertTrue] records a line at error level; a logger built with
    [assertions] on panics after recording it, while one with assertions
    off (as [logging.NoLog], which the repairer's tests use) returns. *)
Record Logger : Type := mk {
  assertions : bool;
  lines : list (level * string)
}.

Definition NoLog : Logger := mk false [].

Definition emit (lv : level) (format : string) (l : Logger) : Logger :=
  mk (assertions l) (lines l ++ [(lv, format)]).

(** [None] is a panic. *)
Definition AssertTrue (b : bool) (format : string) (l : Logger) : option Logger :=
  if b then Some l
  else if assertions l then None
  else Some (emit Error format l).

End Logging.

(** ** The index repairer ([indexer.heightIndexer]) *)

Module Indexer.
Import HeightIndexKeys HeightIndex Logging.

(** What the repairer uses of a [snowman.Block]. *)
Record Block : Type := mkBlock {
  blk_ID : ID;
  blk_Parent : ID;
  blk_Height : Z
}.

(** The [BlockServer] interface. *)
Record BlockServer : Type := mkServer {
  LastAcceptedBlkID : ID;
  GetBlk : ID -> result Block
}.

(** [defaultCommitSizeCap = 1 * units.MiB] *)
Definition defaultCommitSizeCap : Z := 1 * 1048576.

Record heightIndexer : Type := mkIndexer {
  server : BlockServer;
  log : Logger;
  jobDone : bool;
  indexState : index;
  batch : Batch.t;
  commitMaxSize : Z
}.

Definition newHeightIndexer (srv : BlockServer) (lg : Logger) (st : index) : heightIndexer :=
  mkIndexer srv lg false st (NewBatch st) defaultCommitSizeCap.

Definition IsRepaired (hi : heightIndexer) : bool := jobDone hi.

(** Field updates. *)
Definition with_log (hi : heightIndexer) (l : Logger) : heightIndexer :=
  mkIndexer (server hi) l (jobDone hi) (indexState hi) (batch hi) (commitMaxSize hi).
Definition with_jobDone (hi : heightIndexer) (b : bool) : heightIndexer :=
  mkIndexer (server hi) (log hi) b (indexState hi) (batch hi) (commitMaxSize hi).
Definition with_indexState (hi : heightIndexer) (s : index) : heightIndexer :=
  mkIndexer (server hi) (log hi) (jobDone hi) s (batch hi) (commitMaxSize hi).
Definition with_batch (hi : heightIndexer) (b : Batch.t) : heightIndexer :=
  mkIndexer (server hi) (log hi) (jobDone hi) (indexState hi) b (commitMaxSize hi).

Definition logf (lv : level) (format : string) (hi : heightIndexer) : heightIndexer :=
  with_log hi (emit lv format (log hi)).

(** [hi.batch.Put], [hi.batch.Delete], [hi.batch.Write], [hi.batch.Reset];
    the batch was made by, and writes to, the store of [hi.indexState]. *)
Definition batchPut (hi : heightIndexer) (key value : list Z) : heightIndexer * option error :=
  let '(b, err) := Batch.Put (db (indexState hi)) (batch hi) key value in
  (with_batch hi b, err).

Definition batchDelete (hi : heightIndexer) (key : list Z) : heightIndexer * option error :=
  let '(b, err) := Batch.Delete (db (indexState hi)) (batch hi) key in
  (with_batch hi b, err).

Definition batchWrite (hi : heightIndexer) : heightIndexer * option error :=
  let '(d, err) := Batch.Write (db (indexState hi)) (batch hi) in
  (with_indexState hi (HeightIndex.mk (blkHeightsCache (indexState hi)) d), err).

Definition batchReset (hi : heightIndexer) : heightIndexer :=
  with_batch hi (Batch.Reset (batch hi)).

(** [hi.indexState.GetBlockIDAtHeight], which may touch the cache. *)
Definition getBlockIDAtHeight (hi : heightIndexer) (height : Z) : result ID * heightIndexer :=
  let '(r, s) := GetBlockIDAtHeight (indexState hi) height in
  (r, with_indexState hi s).

(** Result of [shouldRepair]: [(needRepair, startBlkID, err)]. *)
Definition shouldRepair (hi : heightIndexer) : (bool * ID * option error) * heightIndexer :=
  match GetCheckpoint (indexState hi) with
  | Ok checkpointID =>
      (* checkpoint found, repair must be resumed *)
      let hi := logf Info "Block indexing by height starting: success. Retrieved checkpoint %v" hi in
      ((true, checkpointID, None), hi)
  | Err ErrNotFound =>
      (* no checkpoint. Either index is complete or repair was never attempted. *)
      let hi := logf Info "Block indexing by height starting: checkpoint not found. Verifying index is complete..." hi in
      (* index is complete iff lastAcceptedBlock is indexed *)
      let latestBlkID := LastAcceptedBlkID (server hi) in
      match GetBlk (server hi) latestBlkID with
      | Err err =>
          let hi := logf Warn "Block indexing by height starting: could not retrieve last accepted block, err %w" hi in
          ((true, ids_Empty, Some err), hi)
      | Ok lastAcceptedBlk =>
          match getBlockIDAtHeight hi (blk_Height lastAcceptedBlk) with
          | (Ok _, hi) =>
              (* index is complete already. *)
              let hi := with_jobDone hi true in
              let hi := logf Info "Block indexing by height starting: Index already complete, nothing to do." hi in
              ((false, ids_Empty, None), hi)
          | (Err ErrNotFound, hi) =>
              (* Index needs repairing. Mark the checkpoint. *)
              match batchPut hi GetCheckpointKey latestBlkID with
              | (hi, Some err) => ((true, ids_Empty, Some err), hi)
              | (hi, None) =>
                  (* it will commit on exit *)
                  let hi := logf Info "Block indexing by height starting: index incomplete. Rebuilding from %v" hi in
                  ((true, latestBlkID, None), hi)
              end
          | (Err err, hi) => ((true, ids_Empty, Some err), hi)
          end
      end
  | Err err => ((true, ids_Empty, Some err), hi)
  end.

Definition doCheckpoint (hi : heightIndexer) (currentBlk : Block) : heightIndexer * option error :=
  (* checkpoint is current block's parent, if it exists *)
  let parentBlkID := blk_Parent currentBlk in
  match GetBlk (server hi) parentBlkID with
  | Ok checkpointBlk =>
      let checkpoint := blk_ID checkpointBlk in
      match batchPut hi GetCheckpointKey checkpoint with
      | (hi, Some err) => (hi, Some err)
      | (hi, None) =>
          let hi := logf Info "Block indexing by height. Stored checkpoint %v at height %d" hi in
          (hi, None)
      end
  | Err ErrNotFound =>
      (* checkpointBlk is genesis. We do not checkpoint here. *)
      (hi, None)
  | Err err => (hi, Some err)
  end.

(** How a run of the walker ends, as far as it has been followed. *)
Inductive outcome : Type :=
| Returned (err : option error) (hi : heightIndexer)
| Panicked
| Running (hi : heightIndexer) (currentBlkID : ID).

(** One turn of the [for] loop of [doRepair] at cursor [currentBlkID]:
    either the function returns, or it panics, or the loop goes round
    again with a new state and cursor. The counters and clock readings of
    the source only feed log lines; the progress line that depends on the
    wall clock is not recorded. *)
Definition doRepair_iter (hi : heightIndexer) (currentBlkID : ID) : outcome :=
  match GetBlk (server hi) currentBlkID with
  | Err ErrNotFound =>
      (* visited all blocks. Let's delete checkpoint *)
      match batchDelete hi GetCheckpointKey with
      | (hi, Some err) => Returned (Some err) hi
      | (hi, None) =>
          let hi := with_jobDone hi true in
          (* it will commit on exit *)
          let hi := logf Info "Block indexing by height: completed. Indexed %d blocks, duration %v" hi in
          Returned None hi
      end
  | Err err => Returned (Some err) hi
  | Ok currentAcceptedBlk =>
      match getBlockIDAtHeight hi (blk_Height currentAcceptedBlk) with
      | (Ok _, hi) =>
          (* err is nil here: the asserted condition [err != nil] is false *)
          match AssertTrue false "unexpected height index entry at height %d" (log hi) with
          | None => Panicked
          | Some l => Running (with_log hi l) currentBlkID
          end
      | (Err ErrNotFound, hi) =>
          (* Rebuild height block index. *)
          let entryKey := GetEntryKey (blk_Height currentAcceptedBlk) in
          match batchPut hi entryKey currentBlkID with
          | (hi, Some err) => Returned (Some err) hi
          | (hi, None) =>
              (* Keep memory footprint under control by committing when a size threshold is reached *)
              if Batch.Size (batch hi) >? commitMaxSize hi then
                (* find and store checkpoint *)
                match doCheckpoint hi currentAcceptedBlk with
                | (hi, Some err) => Returned (Some err) hi
                | (hi, None) =>
                    (* finally commit and reset batch for reuse *)
                    match batchWrite hi with
                    | (hi, Some err) => Returned (Some err) hi
                    | (hi, None) =>
                        let hi := batchReset hi in
                        let hi := logf Info "Block indexing by height: ongoing. Indexed %d blocks, latest committed height %d, committed %d bytes" hi in
                        (* keep checking the parent *)
                        Running hi (blk_Parent currentAcceptedBlk)
                    end
                end
              else
                (* keep checking the parent *)
                Running hi (blk_Parent currentAcceptedBlk)
          end
      | (Err err, hi) => Returned (Some err) hi
      end
  end.

(** [doRepair]: the loop, followed for at most [fuel] turns. [Running]
    means the loop has not left after that many turns. *)
Fixpoint doRepair (fuel : nat) (hi : heightIndexer) (repairStartBlkID : ID) : outcome :=
  match fuel with
  | O => Running hi repairStartBlkID
  | S fuel' =>
      match doRepair_iter hi repairStartBlkID with
      | Running hi' next => doRepair fuel' hi' next
      | o => o
      end
  end.

Definition RepairHeightIndex (fuel : nat) (hi : heightIndexer) : outcome :=
  match shouldRepair hi with
  | ((_, _, Some err), hi) =>
      let hi := logf Error "Block indexing by height starting: failed. Could not determine if index is complete, error %v" hi in
      Returned (Some err) hi
  | ((needRepair, startBlkID, None), hi) =>
      match batchWrite hi with
      | (hi, Some err) =>
          let hi := logf Warn "Failed writing height index batch, err %w" hi in
          Returned (Some err) hi
      | (hi, None) =>
          if negb needRepair then Returned None hi
          else
            match doRepair fuel hi startBlkID with
            | Returned (Some err) hi => Returned (Some err) hi
            | Returned None hi =>
                match batchWrite hi with
                | (hi, Some err) =>
                    let hi := logf Warn "Failed writing height index batch, err %w" hi in
                    Returned (Some err) hi
                | (hi, None) => Returned None hi
                end
            | o => o
            end
      end
  end.

End Indexer.

(** ** Live index update of the proposer VM *)

Module ProposerVM.
Import HeightIndexKeys HeightIndex Logging Indexer.

(** [vm.State] (the height index) is the very object the repairer holds
    as [indexState]: the model keeps that single copy inside [hIndexer]. *)
Record VM : Type := mkVM {
  hIndexer : heightIndexer;
  ctxLog : Logger
}.

Definition State (vm : VM) : index := indexState (hIndexer vm).

Definition with_State (vm : VM) (s : index) : VM :=
  mkVM (with_indexState (hIndexer vm) s) (ctxLog vm).

Definition vlogf (lv : level) (format : string) (vm : VM) : VM :=
  mkVM (hIndexer vm) (emit lv format (ctxLog vm)).

Definition storeHeightEntry (vm : VM) (height : Z) (blkID : ID) : VM * option error :=
  match GetForkHeight (State vm) with
  | Err err =>
      let vm := vlogf Warn "Block indexing by height: new block. Could not load fork height %v" vm in
      (vm, Some err)
  | Ok forkHeight =>
      let moved :=
        if forkHeight >? height then
          let vm := vlogf Info "Block indexing by height: new block. Moved fork height from %d to %d with block %v" vm in
          match SetForkHeight (State vm) height with
          | (s, Some err) =>
              let vm := with_State vm s in
              let vm := vlogf Warn "Block indexing by height: new block. Failed storing new fork height %v" vm in
              (vm, Some err)
          | (s, None) => (with_State vm s, None)
          end
        else (vm, None) in
      match moved with
      | (vm, Some err) => (vm, Some err)
      | (vm, None) =>
          match SetBlockIDAtHeight (State vm) height blkID with
          | (s, Some err) =>
              let vm := with_State vm s in
              let vm := vlogf Warn "Block indexing by height: new block. Failed updating index %v" vm in
              (vm, Some err)
          | (s, None) =>
              let vm := with_State vm s in
              let vm := vlogf Debug "Block indexing by height: added block %s at height %d" vm in
              (vm, Database.Commit (db (State vm)))
          end
      end
  end.

Definition updateHeightIndex (vm : VM) (height : Z) (blkID : ID) : VM * option error :=
  match GetCheckpoint (State vm) with
  | Ok checkpoint =>
      (* index rebuilding is ongoing. We can update the index,
         stepping away from checkpointed blk, which will be handled by indexer. *)
      if decide (blkID <> checkpoint) then storeHeightEntry vm height blkID
      else (vm, None)
  | Err ErrNotFound =>
      (* no checkpoint means indexing is not started or is already done *)
      if IsRepaired (hIndexer vm) then storeHeightEntry vm height blkID
      else (vm, None)
  | Err err => (vm, Some err)
  end.

End ProposerVM.

(** ** Chains used as concrete inputs *)

Module Fixtures.
Import HeightIndexKeys HeightIndex Logging Indexer.

(** A 32-byte identifier for the block at height [h] ([h < 255]); it is
    never [ids.Empty], which the genesis block has as parent. *)
Definition chainID (h : Z) : ID := repeat 0 31%nat ++ [h + 1].

Definition chainBlock (h : Z) : Block :=
  mkBlock (chainID h) (if h =? 0 then ids_Empty else chainID (h - 1)) h.

(** The blocks at heights [0 .. n], as the tests build them. *)
Definition chainBlocks (n : nat) : gmap ID Block :=
  list_to_map (map (fun h => (chainID (Z.of_nat h), chainBlock (Z.of_nat h))) (seq 0 (S n))).

(** [TestBlockServer] with [GetBlkF] looking a map up. *)
Definition testServer (blocks : gmap ID Block) (last : ID) : BlockServer :=
  mkServer last (fun id => match blocks !! id with
                           | Some blk => Ok blk
                           | None => Err ErrNotFound
                           end).

Definition memDB : Database.t := Database.mk ∅ false.

(** A repairer over an empty store and the chain of heights [0 .. n]. *)
Definition freshIndexer (n : nat) (maxSize : Z) : heightIndexer :=
  let hi := newHeightIndexer (testServer (chainBlocks n) (chainID (Z.of_nat n)))
                             NoLog (HeightIndex.New memDB) in
  mkIndexer (server hi) (log hi) (jobDone hi) (indexState hi) (batch hi) maxSize.

(** The first half of [RepairHeightIndex]: the probe and the commit of
    what it staged; [probeStart] is the block the walk starts from. *)
Definition afterProbe (hi : heightIndexer) : heightIndexer :=
  (batchWrite (shouldRepair hi).2).1.
Definition probeStart (hi : heightIndexer) : ID := (shouldRepair hi).1.1.2.

(** The repairer at the point where [doRepair] has returned [nil] and
    [RepairHeightIndex] has not yet written the final batch. *)
Definition beforeFinalCommit (fuel : nat) (hi : heightIndexer) : option heightIndexer :=
  match doRepair fuel (afterProbe hi) (probeStart hi) with
  | Returned None hi' => Some hi'
  | _ => None
  end.

(** A crash keeps the store and nothing else; the next start builds a
    new repairer over it. *)
Definition restart (hi : heightIndexer) : heightIndexer :=
  let hi' := newHeightIndexer (server hi) (log hi) (HeightIndex.New (db (indexState hi))) in
  mkIndexer (server hi') (log hi') (jobDone hi') (indexState hi') (batch hi') (commitMaxSize hi).

(** The store holds the entry of every height [0 .. n] of the chain. *)
Definition fullyBuilt (d : Database.t) (n : nat) : bool :=
  forallb (fun h => match Database.Get d (GetEntryKey (Z.of_nat h)) with
                    | Ok v => bool_decide (v = chainID (Z.of_nat h))
                    | Err _ => false
                    end) (seq 0 (S n)).

(** A store that already holds a checkpoint. *)
Definition checkpointedIndexer (n : nat) (k : Z) : heightIndexer :=
  let hi := freshIndexer n defaultCommitSizeCap in
  with_indexState hi (SetCheckpoint (indexState hi) (chainID k)).1.

(** A store whose index entry for the last accepted height is present. *)
Definition indexedIndexer (n : nat) : heightIndexer :=
  let hi := freshIndexer n defaultCommitSizeCap in
  with_indexState hi
    (SetBlockIDAtHeight (indexState hi) (Z.of_nat n) (chainID (Z.of_nat n))).1.

(** What an interrupted run leaves when every block is committed as it is
    indexed ([commitMaxSize = 0]) and the process stops after [doRepair]
    has returned and before the final batch is written; then the restart. *)
Definition resumedIndexer : heightIndexer :=
  match beforeFinalCommit 5 (freshIndexer 1 0) with
  | Some hi => restart hi
  | None => freshIndexer 1 0
  end.

(** A store that has been closed, under a fresh index. *)
Definition closedIndex : index := HeightIndex.New (Database.mk ∅ true).

(** A store that holds a fork height, and optionally a checkpoint. *)
Definition forkedIndex (fork : Z) (checkpoint : option ID) : index :=
  let s := (SetForkHeight (HeightIndex.New memDB) fork).1 in
  match checkpoint with
  | Some cp => (SetCheckpoint s cp).1
  | None => s
  end.

(** A proposer VM over a given index, the repairer's done flag as given. *)
Definition vmOver (s : index) (done : bool) : ProposerVM.VM :=
  ProposerVM.mkVM
    (mkIndexer (testServer (chainBlocks 3) (chainID 3)) NoLog done s
               Batch.empty defaultCommitSizeCap)
    NoLog.

End Fixtures.

(** ** Per-peer outbound message queues ([network/peer])

    The debug log lines of the queues are not recorded. *)

Module PeerQueue.

(** What the queues use of a [message.OutboundMessage]. *)
Record OutboundMessage : Type := mkMsg {
  msg_Op : Z;
  msg_Bytes : list Z
}.

Definition NodeID : Type := list Z.

(** The [throttling.OutboundMsgThrottler] interface, over a throttler state. *)
Class OutboundMsgThrottler (T : Type) : Type := {
  Acquire : T -> OutboundMessage -> NodeID -> bool * T;
  Release : T -> OutboundMessage -> NodeID -> T
}.

(** Calls made to the throttler and to the metrics sink, oldest first.
    The queues record them so that they can be counted. *)
Inductive call : Type :=
| CallAcquire (msg : OutboundMessage) (ok : bool)
| CallRelease (msg : OutboundMessage)
| CallSendFailed (msg : OutboundMessage).

(** The messages whose reservation was granted, and those whose
    reservation was given back, in call order. *)
Definition acquiredMsgs (cs : list call) : list OutboundMessage :=
  flat_map (fun c => match c with CallAcquire m true => [m] | _ => [] end) cs.
Definition releasedMsgs (cs : list call) : list OutboundMessage :=
  flat_map (fun c => match c with CallRelease m => [m] | _ => [] end) cs.
Definition sendFailedMsgs (cs : list call) : list OutboundMessage :=
  flat_map (fun c => match c with CallSendFailed m => [m] | _ => [] end) cs.

(** *** The throttled variant *)

Record throttledMessageQueue (T : Type) : Type := mkThrottled {
  id : NodeID;
  outboundMsgThrottler : T;
  closed : bool;
  queue : list OutboundMessage;
  calls : list call
}.
Arguments mkThrottled {T}.
Arguments id {T}.
Arguments outboundMsgThrottler {T}.
Arguments closed {T}.
Arguments queue {T}.
Arguments calls {T}.

Section Throttled.
Context {T : Type} `{OutboundMsgThrottler T}.

Definition NewThrottledMessageQueue (nodeID : NodeID) (th : T) : throttledMessageQueue T :=
  mkThrottled nodeID th false [] [].

(** [q.outboundMsgThrottler.Release(msg, q.id)] *)
Definition release (q : throttledMessageQueue T) (msg : OutboundMessage) : throttledMessageQueue T :=
  mkThrottled (id q) (Release (outboundMsgThrottler q) msg (id q)) (closed q) (queue q)
              (calls q ++ [CallRelease msg]).

(** [q.metrics.SendFailed(msg)] *)
Definition sendFailed (q : throttledMessageQueue T) (msg : OutboundMessage) : throttledMessageQueue T :=
  mkThrottled (id q) (outboundMsgThrottler q) (closed q) (queue q)
              (calls q ++ [CallSendFailed msg]).

Definition with_queue (q : throttledMessageQueue T) (l : list OutboundMessage) : throttledMessageQueue T :=
  mkThrottled (id q) (outboundMsgThrottler q) (closed q) l (calls q).

Definition Push (q : throttledMessageQueue T) (msg : OutboundMessage) : bool * throttledMessageQueue T :=
  (* Acquire space on the outbound message queue, or drop [msg] if we can't. *)
  let '(ok, th) := Acquire (outboundMsgThrottler q) msg (id q) in
  let q := mkThrottled (id q) th (closed q) (queue q) (calls q ++ [CallAcquire msg ok]) in
  if negb ok then (false, sendFailed q msg)
  else if closed q then (false, sendFailed (release q msg) msg)
  else (true, with_queue q (queue q ++ [msg])).

(** A [Pop] either hands a message out, or reports the closed queue
    with [(nil, false)], or waits on the condition variable. *)
Inductive popResult : Type :=
| Popped (msg : OutboundMessage)
| PopNone
| PopWaiting.

Definition Pop (q : throttledMessageQueue T) : popResult * throttledMessageQueue T :=
  if closed q then (PopNone, q)
  else
    match queue q with
    | [] => (PopWaiting, q)
    | msg :: rest => (Popped msg, release (with_queue q rest) msg)
    end.

Definition PopWithoutBlocking (q : throttledMessageQueue T) : popResult * throttledMessageQueue T :=
  match queue q with
  | [] => (PopNone, q)
  | msg :: rest => (Popped msg, release (with_queue q rest) msg)
  end.

Definition Close (q : throttledMessageQueue T) : throttledMessageQueue T :=
  let q := mkThrottled (id q) (outboundMsgThrottler q) true (queue q) (calls q) in
  let q := fold_left (fun q msg => sendFailed (release q msg) msg) (queue q) q in
  with_queue q [].

(** A lifecycle is a sequence of calls on the queue. *)
Inductive op : Type :=
| OpPush (msg : OutboundMessage)
| OpPop
| OpPopWithoutBlocking
| OpClose.

Definition step (q : throttledMessageQueue T) (o : op) : throttledMessageQueue T :=
  match o with
  | OpPush msg => (Push q msg).2
  | OpPop => (Pop q).2
  | OpPopWithoutBlocking => (PopWithoutBlocking q).2
  | OpClose => Close q
  end.

Definition run (q : throttledMessageQueue T) (ops : list op) : throttledMessageQueue T :=
  fold_left step ops q.

(** Number of successful [Acquire] calls, and of [Release] calls. *)
Definition acquires (q : throttledMessageQueue T) : nat := length (acquiredMsgs (calls q)).
Definition releases (q : throttledMessageQueue T) : nat := length (releasedMsgs (calls q)).

(** Every reservation granted so far has either been given back or
    belongs to a message still queued; a closed queue holds nothing. *)
Definition balanced (q : throttledMessageQueue T) : Prop :=
  acquiredMsgs (calls q) ≡ₚ releasedMsgs (calls q) ++ queue q
  /\ (closed q = true -> queue q = []).

End Throttled.

(** A throttler that admits everything. *)
#[export] Instance admitAll : OutboundMsgThrottler unit := {
  Acquire := fun th _ _ => (true, th);
  Release := fun th _ _ => th
}.

(** A throttler with a byte budget: the state is what is left of it. *)
#[export] Instance byteBudget : OutboundMsgThrottler Z := {
  Acquire := fun left msg _ =>
    let n := Z.of_nat (length (msg_Bytes msg)) in
    if n <=? left then (true, left - n) else (false, left);
  Release := fun left msg _ => left + Z.of_nat (length (msg_Bytes msg))
}.

(** *** The blocking variant *)

(** A buffered Go channel. *)
Record chan (A : Type) : Type := mkChan {
  buf : list A;
  cap : nat;
  chClosed : bool
}.
Arguments mkChan {A}.
Arguments buf {A}.
Arguments cap {A}.
Arguments chClosed {A}.

(** [closing] is only ever closed, never sent to: it is kept as the flag
    "has been closed". [readers] counts the [Push] calls that hold the
    read side of [closingLock]. [sendFailedLog] records the calls to
    [metrics.SendFailed]. *)
Record blockingMessageQueue : Type := mkBlocking {
  closeOnce : bool;
  readers : nat;
  closing : bool;
  bqueue : chan OutboundMessage;
  sendFailedLog : list OutboundMessage
}.

Definition NewBlockingMessageQueue (bufferSize : nat) : blockingMessageQueue :=
  mkBlocking false 0 false (mkChan [] bufferSize false) [].

Definition RLock (q : blockingMessageQueue) : blockingMessageQueue :=
  mkBlocking (closeOnce q) (S (readers q)) (closing q) (bqueue q) (sendFailedLog q).
Definition RUnlock (q : blockingMessageQueue) : blockingMessageQueue :=
  mkBlocking (closeOnce q) (pred (readers q)) (closing q) (bqueue q) (sendFailedLog q).
Definition SendFailed (msg : OutboundMessage) (q : blockingMessageQueue) : blockingMessageQueue :=
  mkBlocking (closeOnce q) (readers q) (closing q) (bqueue q) (sendFailedLog q ++ [msg]).
Definition with_buf (q : blockingMessageQueue) (l : list OutboundMessage) : blockingMessageQueue :=
  mkBlocking (closeOnce q) (readers q) (closing q)
             (mkChan l (cap (bqueue q)) (chClosed (bqueue q))) (sendFailedLog q).

(** A send can be selected when the buffer has room; on a closed channel
    it can be selected too, and panics. A receive can be selected when a
    message is buffered. Hand-over to a receiver that is already waiting
    (the only way through a channel without buffer) is not modelled. *)
Definition sendReady (c : chan OutboundMessage) : bool :=
  chClosed c || (length (buf c) <? cap c)%nat.
Definition recvReady (c : chan OutboundMessage) : bool :=
  negb (length (buf c) =? 0)%nat.

(** [select] takes one of the ready cases; which one is the scheduler's
    choice [sched]. With no ready case and no [default] it waits. *)
Definition pick {A : Type} (sched : nat) (ready : list A) : option A :=
  match ready with
  | [] => None
  | _ => ready !! (sched mod length ready)%nat
  end.

Inductive pushCase : Type := CaseSend | CaseCtxDone | CaseClosing.

Definition pushReady (ctxDone : bool) (q : blockingMessageQueue) : list pushCase :=
  (if sendReady (bqueue q) then [CaseSend] else []) ++
  (if ctxDone then [CaseCtxDone] else []) ++
  (if closing q then [CaseClosing] else []).

Inductive pushOutcome : Type :=
| PushReturned (ok : bool) (q : blockingMessageQueue)
| PushWaiting (q : blockingMessageQueue)
| PushPanicked.

(** First half of [Push]: the read lock and the first [select]. *)
Definition Push_enter (msg : OutboundMessage) (q : blockingMessageQueue) : pushOutcome :=
  let q := RLock q in
  if closing q then PushReturned false (RUnlock (SendFailed msg q))
  else PushWaiting q.

(** Second half of [Push]: the three-way [select], taken in the state the
    queue has when it fires; [ctxDone] tells whether the caller's context
    is cancelled by then. *)
Definition Push_select (sched : nat) (ctxDone : bool) (msg : OutboundMessage)
    (q : blockingMessageQueue) : pushOutcome :=
  match pick sched (pushReady ctxDone q) with
  | None => PushWaiting q
  | Some CaseSend =>
      if chClosed (bqueue q) then PushPanicked
      else PushReturned true (RUnlock (with_buf q (buf (bqueue q) ++ [msg])))
  | Some CaseCtxDone => PushReturned false (RUnlock (SendFailed msg q))
  | Some CaseClosing => PushReturned false (RUnlock (SendFailed msg q))
  end.

(** A [Push] that nothing interleaves with. *)
Definition BPush (sched : nat) (ctxDone : bool) (msg : OutboundMessage)
    (q : blockingMessageQueue) : pushOutcome :=
  match Push_enter msg q with
  | PushWaiting q' => Push_select sched ctxDone msg q'
  | o => o
  end.

Inductive popCase : Type := CaseRecv | CasePopClosing.

Definition BPop (sched : nat) (q : blockingMessageQueue)
    : option (option OutboundMessage * blockingMessageQueue) :=
  match pick sched ((if recvReady (bqueue q) then [CaseRecv] else []) ++
                    (if closing q then [CasePopClosing] else [])) with
  | None => None
  | Some CaseRecv =>
      match buf (bqueue q) with
      | msg :: rest => Some (Some msg, with_buf q rest)
      | [] => None
      end
  | Some CasePopClosing => Some (None, q)
  end.

Definition BPopWithoutBlocking (q : blockingMessageQueue)
    : option OutboundMessage * blockingMessageQueue :=
  match buf (bqueue q) with
  | msg :: rest => (Some msg, with_buf q rest)
  | [] => (None, q)
  end.

(** [Close]: once only, close [closing]; then, with the write lock (no
    [Push] in flight), drain the channel counting each message. While a
    [Push] still holds the read lock the drain waits ([None]). *)
Definition Close_trigger (q : blockingMessageQueue) : blockingMessageQueue :=
  mkBlocking true (readers q) true (bqueue q) (sendFailedLog q).

Definition Close_drain (q : blockingMessageQueue) : option blockingMessageQueue :=
  if (readers q =? 0)%nat then
    Some (with_buf (fold_left (fun q msg => SendFailed msg q) (buf (bqueue q)) q) [])
  else None.

Definition BClose (q : blockingMessageQueue) : option blockingMessageQueue :=
  if closeOnce q then Some q else Close_drain (Close_trigger q).

(** The calls a blocking queue can take, one atomic step each. *)
Inductive bop : Type :=
| BOpPushEnter (msg : OutboundMessage)
| BOpPushSelect (sched : nat) (ctxDone : bool) (msg : OutboundMessage)
| BOpPop (sched : nat)
| BOpPopWithoutBlocking
| BOpCloseTrigger
| BOpCloseDrain.

Definition pushState (q : blockingMessageQueue) (o : pushOutcome) : blockingMessageQueue :=
  match o with
  | PushReturned _ q' => q'
  | PushWaiting q' => q'
  | PushPanicked => q
  end.

Definition bstep (q : blockingMessageQueue) (o : bop) : blockingMessageQueue :=
  match o with
  | BOpPushEnter msg => pushState q (Push_enter msg q)
  | BOpPushSelect sched ctxDone msg => pushState q (Push_select sched ctxDone msg q)
  | BOpPop sched => match BPop sched q with Some (_, q') => q' | None => q end
  | BOpPopWithoutBlocking => (BPopWithoutBlocking q).2
  | BOpCloseTrigger => if closeOnce q then q else Close_trigger q
  | BOpCloseDrain => match Close_drain q with Some q' => q' | None => q end
  end.

Definition brun (q : blockingMessageQueue) (ops : list bop) : blockingMessageQueue :=
  fold_left bstep ops q.

End PeerQueue.

(** ** The bounded worker pool ([utils.ThreadPool]) *)

Module WorkerPool.

(** The pool as [releaseWorker] sees it: the embedded [sync.Mutex], the
    two counters, and the signal channel [make(chan struct{}, size)], of
    which only the number of buffered signals matters. *)
Record ThreadPool : Type := mkPool {
  locked : bool;
  size : Z;
  activeWorkers : Z;
  signalLen : Z;
  signalCap : Z;
  signalClosed : bool
}.

Definition NewThreadPool (n : Z) : ThreadPool := mkPool false n 0 0 n false.

(** How a call made by one goroutine ends: it completes, or it parks on
    the mutex in the state shown, or it panics. *)
Inductive outcome : Type :=
| Completed (t : ThreadPool)
| Parked (t : ThreadPool)
| Panicked.

Definition with_locked (t : ThreadPool) (b : bool) : ThreadPool :=
  mkPool b (size t) (activeWorkers t) (signalLen t) (signalCap t) (signalClosed t).
Definition with_active (t : ThreadPool) (a : Z) : ThreadPool :=
  mkPool (locked t) (size t) a (signalLen t) (signalCap t) (signalClosed t).
Definition with_signalLen (t : ThreadPool) (n : Z) : ThreadPool :=
  mkPool (locked t) (size t) (activeWorkers t) n (signalCap t) (signalClosed t).

(** [t.Lock()]: [sync.Mutex] is not reentrant; on a held mutex the caller
    parks, whoever holds it. *)
Definition Lock (t : ThreadPool) : option ThreadPool :=
  if locked t then None else Some (with_locked t true).
Definition Unlock (t : ThreadPool) : ThreadPool := with_locked t false.

Definition freeWorkerExists (t : ThreadPool) : bool := size t >? activeWorkers t.

(** The bodies of [incrementWorkers] and [decrementWorkers]. *)
Definition increment (t : ThreadPool) : ThreadPool :=
  let a := activeWorkers t + 1 in
  with_active t (if a >? size t then size t else a).
Definition decrement (t : ThreadPool) : ThreadPool :=
  let a := activeWorkers t - 1 in
  with_active t (if a <? 0 then 0 else a).

(** The version of [utils/thread_pool.go] whose counters are updated
    without taking the mutex. *)
Definition incrementWorkers_plain (t : ThreadPool) : outcome := Completed (increment t).
Definition decrementWorkers_plain (t : ThreadPool) : outcome := Completed (decrement t).

(** The versions whose [incrementWorkers] and [decrementWorkers] start
    with [t.Lock(); defer t.Unlock()]. *)
Definition incrementWorkers_locking (t : ThreadPool) : outcome :=
  match Lock t with
  | None => Parked t
  | Some t => Completed (Unlock (increment t))
  end.
Definition decrementWorkers_locking (t : ThreadPool) : outcome :=
  match Lock t with
  | None => Parked t
  | Some t => Completed (Unlock (decrement t))
  end.

(** [releaseWorker], whose text is the same in every version of the pool;
    the versions differ in the [decrementWorkers] it calls. *)
Definition releaseWorker (decrementWorkers : ThreadPool -> outcome) (t : ThreadPool) : outcome :=
  match Lock t with
  | None => Parked t
  | Some t =>
      match decrementWorkers t with
      | Completed t =>
          (* dont signal if the buffer is full *)
          if negb (signalLen t =? signalCap t) then
            if signalClosed t then Panicked
            else Completed (Unlock (with_signalLen t (signalLen t + 1)))
          else Completed (Unlock t)
      | o => o
      end
  end.

(** [handleMessage]: count the worker in, run the request, and on every
    way out (the deferred call) [releaseWorker]. What the request returns
    changes nothing in the pool. *)
Definition handleMessage (incrementWorkers decrementWorkers : ThreadPool -> outcome)
    (appErr : option error) (t : ThreadPool) : outcome :=
  match incrementWorkers t with
  | Completed t => releaseWorker decrementWorkers t
  | o => o
  end.

(** Signals put into the channel between two states. *)
Definition signalsEmitted (before after : ThreadPool) : Z :=
  signalLen after - signalLen before.

End WorkerPool.

(** ** Cache and store of the height index together *)

Module IndexCoherence.
Import HeightIndexKeys HeightIndex.

(** The cache only holds what the store holds: an identifier cached for
    a height is the value stored under the entry key of that height. *)
Definition coherent (hi : index) : Prop :=
  forall height v,
    LRU.find (GetEntryKey height) (LRU.entries (blkHeightsCache hi)) = Some v ->
    Database.data (db hi) !! GetEntryKey height = Some v.

(** What a read of [height] should answer, from the store alone. *)
Definition stored (hi : index) (height : Z) : result ID :=
  match Database.Get (db hi) (GetEntryKey height) with
  | Ok bytes => ToID bytes
  | Err e => Err e
  end.

End IndexCoherence.

(** ** Chains as the walk sees them *)

Module RepairChain.
Import HeightIndexKeys HeightIndex Indexer.

(** [linked srv cur blocks]: fetching [cur] gives the first block, fetching
    its parent the second, and so on, and the parent of the last block is
    not found. *)
Fixpoint linked (srv : BlockServer) (cur : ID) (blocks : list Block) : Prop :=
  match blocks with
  | [] => GetBlk srv cur = Err ErrNotFound
  | b :: rest => GetBlk srv cur = Ok b /\ linked srv (blk_Parent b) rest
  end.

(** The entries a walk over such a chain is to write: each block's height
    with the identifier it was fetched by. *)
Fixpoint entriesOf (cur : ID) (blocks : list Block) : list (Z * ID) :=
  match blocks with
  | [] => []
  | b :: rest => (blk_Height b, cur) :: entriesOf (blk_Parent b) rest
  end.

(** The store as writing the repairer's batch now would leave it. *)
Definition pending (hi : heightIndexer) : gmap (list Z) (list Z) :=
  fold_left Batch.apply (Batch.writes (batch hi)) (Database.data (db (indexState hi))).

(** Nothing is known of a height: not cached, not stored, not staged. *)
Definition unindexed (hi : heightIndexer) (height : Z) : Prop :=
  LRU.find (GetEntryKey height) (LRU.entries (blkHeightsCache (indexState hi))) = None
  /\ Database.data (db (indexState hi)) !! GetEntryKey height = None
  /\ pending hi !! GetEntryKey height = None.

(** The chain of the fixtures, newest block first. *)
Definition chainList (n : nat) : list Block :=
  map (fun h => Fixtures.chainBlock (Z.of_nat h)) (rev (seq 0 (S n))).

End RepairChain.

(** ** Height queries of the two VMs *)

Module HeightQueries.
Import HeightIndexKeys HeightIndex Logging Indexer.

(** What [GetBlockIDByHeight] returns: an identifier, or
    [errIndexIncomplete], or the error of the index or of the inner VM. *)
Inductive answer : Type :=
| Answer (id : ID)
| IndexIncomplete
| Failed (e : error).

Definition of_result (r : result ID) : answer :=
  match r with
  | Ok id => Answer id
  | Err e => Failed e
  end.

(** The proposer VM's [GetBlockIDByHeight]. [inner] is
    [innerHVM.GetBlockIDByHeight], the inner VM's own index, which answers
    the heights below the fork. *)
Definition GetBlockIDByHeight (inner : Z -> answer) (vm : ProposerVM.VM) (height : Z)
    : answer * ProposerVM.VM :=
  if negb (IsRepaired (ProposerVM.hIndexer vm)) then (IndexIncomplete, vm)
  else
    (* preFork blocks are indexed in innerVM only *)
    match GetForkHeight (ProposerVM.State vm) with
    | Err err => (Failed err, vm)
    | Ok forkHeight =>
        if height <? forkHeight then (inner height, vm)
        else
          (* postFork blocks are indexed in proposerVM *)
          let '(r, s) := GetBlockIDAtHeight (ProposerVM.State vm) height in
          (of_result r, ProposerVM.with_State vm s)
    end.

End HeightQueries.

Module PlatformVM.
Import HeightIndexKeys HeightIndex Logging Indexer HeightQueries.

(** What the height index methods use of the platform VM: the repairer
    (which holds [internalState]'s height index) and the logger. *)
Record VM : Type := mkVM {
  HeightIndexer : heightIndexer;
  ctxLog : Logger
}.

Definition internalState (vm : VM) : index := indexState (HeightIndexer vm).

Definition with_internalState (vm : VM) (s : index) : VM :=
  mkVM (with_indexState (HeightIndexer vm) s) (ctxLog vm).

Definition IsHeightIndexComplete (vm : VM) : bool := IsRepaired (HeightIndexer vm).

Definition GetBlockIDByHeight (vm : VM) (height : Z) : answer * VM :=
  if negb (IsHeightIndexComplete vm) then (IndexIncomplete, vm)
  else
    let '(r, s) := GetBlockIDAtHeight (internalState vm) height in
    (of_result r, with_internalState vm s).

Definition updateHeightIndex (vm : VM) (height : Z) (blkID : ID) : VM * option error :=
  match SetBlockIDAtHeight (internalState vm) height blkID with
  | (s, Some err) =>
      let vm := with_internalState vm s in
      (mkVM (HeightIndexer vm)
            (emit Warn "Block indexing by height: new block. Failed updating index %w" (ctxLog vm)),
       Some err)
  | (s, None) =>
      let vm := with_internalState vm s in
      (mkVM (HeightIndexer vm)
            (emit Debug "Block indexing by height: added block %s at height %d" (ctxLog vm)),
       None)
  end.

End PlatformVM.

(** ** What the blocking queue keeps along its calls *)

Module QueueBounds.
Import PeerQueue.

(** The capacity stays what it was made with, the buffer stays within it,
    the message channel stays open, and [closing] is closed exactly when
    [closeOnce] has fired. *)
Definition boundedBy (n : nat) (q : blockingMessageQueue) : Prop :=
  cap (bqueue q) = n
  /\ (length (buf (bqueue q)) <= n)%nat
  /\ chClosed (bqueue q) = false
  /\ closeOnce q = closing q.

End QueueBounds.

(** ** The health API client ([api/health]) *)

Module HealthClient.

Inductive herror : Type :=
| errInvalidNumberOfChecks
| errRequest (code : Z).

Record APIHealthReply : Type := mkReply { Healthy : bool }.

(** The endpoint as the client sees it: [requester k] is what the request
    number [k] fills into the reply and the error it returns. The client
    is followed by the number of requests it has sent and of pauses it has
    taken. *)
Record client : Type := mkClient {
  requester : nat -> APIHealthReply * option herror;
  sent : nat;
  slept : nat
}.

Definition Health (c : client) : (APIHealthReply * option herror) * client :=
  (requester c (sent c), mkClient (requester c) (S (sent c)) (slept c)).

(** [time.Sleep(freq)] *)
Definition Sleep (c : client) : client :=
  mkClient (requester c) (sent c) (S (slept c)).

(** [err == nil && res.Healthy] *)
Definition healthy (r : APIHealthReply * option herror) : bool :=
  match r.2 with
  | None => Healthy r.1
  | Some _ => false
  end.

(** The loop [for i := 1; i < numChecks; i++], with [n] turns left and the
    error of the last request in [err]. *)
Fixpoint awaitLoop (n : nat) (err : option herror) (c : client)
    : (bool * option herror) * client :=
  match n with
  | O => ((false, err), c)
  | S n' =>
      let c := Sleep c in
      let '(r, c) := Health c in
      if healthy r then ((true, None), c) else awaitLoop n' r.2 c
  end.

Definition AwaitHealthy (c : client) (numChecks : Z) : (bool * option herror) * client :=
  if numChecks <? 1 then ((false, Some errInvalidNumberOfChecks), c)
  else
    (* Check health once outside the loop to avoid sleeping unnecessarily. *)
    let '(r, c) := Health c in
    if healthy r then ((true, None), c)
    else awaitLoop (Z.to_nat (numChecks - 1)) r.2 c.

End HealthClient.

(** ** The pool of locks ([utils.LockPool]) *)

Module LockPool.

(** A [basicLock]: the [free] flag and the [sync.Mutex], of which only
    whether it is held matters. *)
Record basicLock : Type := mkLock {
  free : bool;
  held : bool
}.

(** The pool and the signal channel [make(chan struct{}, size)], of which
    only the number of buffered signals matters. [closeCh] is never made. *)
Record t : Type := mkPool {
  pool : list basicLock;
  signalLen : nat;
  signalCap : nat
}.

(** [make] panics on a negative size. *)
Definition NewLockPool (size : Z) : option t :=
  if size <? 0 then None
  else Some (mkPool (repeat (mkLock true false) (Z.to_nat size)) 0 (Z.to_nat size)).

(** The loop [for i, lock := range l.pool] from index [i] on: the index
    found and the locks as the loop leaves them. *)
Fixpoint scan (i : Z) (l : list basicLock) : option (Z * list basicLock) :=
  match l with
  | [] => None
  | lock :: rest =>
      if free lock then Some (i, mkLock false (held lock) :: rest)
      else
        match scan (i + 1) rest with
        | Some (j, rest') => Some (j, lock :: rest')
        | None => None
        end
  end.

(** [GetFreeLock]: the index and [true], or [(nil, 0, false)]; the lock
    returned is the one at that index. *)
Definition GetFreeLock (p : t) : (Z * bool) * t :=
  match scan 0 (pool p) with
  | Some (i, l) => ((i, true), mkPool l (signalLen p) (signalCap p))
  | None => ((0, false), p)
  end.

Definition Len (p : t) : Z := Z.of_nat (length (pool p)).

(** The caller of [GetFreeLock] takes the mutex of the lock it was given. *)
Definition LockAt (index : Z) (p : t) : option t :=
  match pool p !! Z.to_nat index with
  | Some lock =>
      if held lock then None
      else Some (mkPool (<[Z.to_nat index := mkLock (free lock) true]> (pool p))
                        (signalLen p) (signalCap p))
  | None => None
  end.

(** How [Free] ends: it returns, or it waits on the full signal channel,
    or the runtime stops the program (unlock of a mutex that is not held). *)
Inductive outcome : Type :=
| Completed (p : t)
| Blocked (p : t)
| Fatal.

(** [Free]; [guarded] tells the version: the one of [unnamed/part_002]
    does not signal when the buffer is full, the one of
    [utils/lock_pool.go] sends in any case. *)
Definition Free (guarded : bool) (index : Z) (p : t) : outcome :=
  if (index <? 0) || (index >=? Len p) then Completed p
  else
    match pool p !! Z.to_nat index with
    | None => Completed p
    | Some lock =>
        if negb (held lock) then Fatal
        else
          let p := mkPool (<[Z.to_nat index := mkLock true false]> (pool p))
                          (signalLen p) (signalCap p) in
          if (signalLen p <? signalCap p)%nat then
            Completed (mkPool (pool p) (S (signalLen p)) (signalCap p))
          else if guarded then Completed p
          else Blocked p
    end.

(** [WaitForSignal]: [closeCh] being nil, the [select] can only take a
    signal; with none buffered it waits ([None]). *)
Definition WaitForSignal (p : t) : option ((Z * bool) * t) :=
  match signalLen p with
  | O => None
  | S n => Some (GetFreeLock (mkPool (pool p) n (signalCap p)))
  end.

(** The [free] flags of the pool. *)
Definition freeFlags (p : t) : list bool := map free (pool p).

End LockPool.

(** * Properties *)

(** ** Key layout *)

Section KeyLayout.
Import HeightIndexKeys.

Lemma byte_of_shiftr_digit (v k : Z) :
  0 <= k -> byte_of (Z.shiftr v (8 * k)) = (v / 256 ^ k) mod 256.
Proof.
  intros Hk. unfold byte_of.
  change 255 with (Z.ones 8).
  rewrite Z.land_ones by lia.
  rewrite Z.shiftr_div_pow2 by lia.
  rewrite Z.pow_mul_r by lia.
  reflexivity.
Qed.

Lemma byte_of_range (v : Z) : 0 <= byte_of v < 256.
Proof.
  unfold byte_of. change 255 with (Z.ones 8).
  rewrite Z.land_ones by lia. apply Z.mod_pos_bound. lia.
Qed.

Lemma PutUint64_make (v : Z) :
  PutUint64 (make_bytes LongLen) v = big_endian_uint64 v.
Proof.
  unfold PutUint64, make_bytes, LongLen, big_endian_uint64. simpl.
  change (byte_of v) with (byte_of (Z.shiftr v (8 * 0))).
  change 56 with (8 * 7). change 48 with (8 * 6). change 40 with (8 * 5).
  change 32 with (8 * 4). change 24 with (8 * 3). change 16 with (8 * 2).
  change (Z.shiftr v 8) with (Z.shiftr v (8 * 1)).
  rewrite !byte_of_shiftr_digit by lia. reflexivity.
Qed.

(** The eight digits read back give the height: the encoding is the
    big-endian one of an unsigned 64-bit integer. *)
Lemma big_endian_roundtrip (h : Z) :
  0 <= h < 2 ^ 64 -> big_endian_value (big_endian_uint64 h) = h.
Proof.
  intros Hh. unfold big_endian_value, big_endian_uint64. simpl.
  change (2 ^ 64) with 18446744073709551616 in Hh.
  change (256 ^ (7 - Z.of_nat 0)) with 72057594037927936.
  change (256 ^ (7 - Z.of_nat 1)) with 281474976710656.
  change (256 ^ (7 - Z.of_nat 2)) with 1099511627776.
  change (256 ^ (7 - Z.of_nat 3)) with 4294967296.
  change (256 ^ (7 - Z.of_nat 4)) with 16777216.
  change (256 ^ (7 - Z.of_nat 5)) with 65536.
  change (256 ^ (7 - Z.of_nat 6)) with 256.
  change (256 ^ (7 - Z.of_nat 7)) with 1.
  Z.div_mod_to_equations. lia.
Qed.

Lemma GetEntryKey_unfold (h : Z) :
  GetEntryKey h = bytes_of_string "heightkey" ++ big_endian_uint64 h.
Proof.
  unfold GetEntryKey. rewrite PutUint64_make. reflexivity.
Qed.

Lemma GetEntryKey_length (h : Z) : length (GetEntryKey h) = 17%nat.
Proof. rewrite GetEntryKey_unfold. reflexivity. Qed.

Lemma GetEntryKey_not_checkpoint (h : Z) : GetEntryKey h <> GetCheckpointKey.
Proof.
  intros E. apply (f_equal (@length Z)) in E.
  rewrite GetEntryKey_length in E. discriminate E.
Qed.

Lemma GetEntryKey_not_fork (h : Z) : GetEntryKey h <> GetForkKey.
Proof.
  intros E. apply (f_equal (@length Z)) in E.
  rewrite GetEntryKey_length in E. discriminate E.
Qed.

(** C9. The persistence keys are byte-exact: the entry key of a height is
    the bytes of "heightkey" followed by the eight big-endian bytes of the
    height, 17 bytes in all; the fork-height key is the bytes of
    "preForkKey"; the checkpoint key is the bytes of "checkpoint". *)
Theorem key_layout_byte_exact (h : Z) :
  GetEntryKey h = bytes_of_string "heightkey" ++ big_endian_uint64 h
  /\ length (big_endian_uint64 h) = 8%nat
  /\ length (GetEntryKey h) = 17%nat
  /\ Forall (fun b => 0 <= b < 256) (GetEntryKey h)
  /\ GetForkKey = bytes_of_string "preForkKey"
  /\ GetCheckpointKey = bytes_of_string "checkpoint".
Proof.
  split; [apply GetEntryKey_unfold|].
  split; [reflexivity|].
  split; [apply GetEntryKey_length|].
  split; [|split; reflexivity].
  unfold GetEntryKey. apply Forall_app. split.
  - vm_compute. repeat constructor; discriminate.
  - unfold PutUint64, make_bytes, LongLen. simpl.
    repeat (constructor; [apply byte_of_range|]). constructor.
Qed.

End KeyLayout.

(** ** The should-repair probe *)

Section Probe.
Import HeightIndexKeys HeightIndex Logging Indexer Fixtures.

Lemma GetCheckpoint_NotFound_open (s : index) :
  GetCheckpoint s = Err ErrNotFound -> Database.closed (db s) = false.
Proof.
  unfold GetCheckpoint, Database.Get.
  destruct (Database.closed (db s)); [discriminate | reflexivity].
Qed.

Lemma GetBlockIDAtHeight_db (s s' : index) (h : Z) (r : result ID) :
  GetBlockIDAtHeight s h = (r, s') -> db s' = db s.
Proof.
  unfold GetBlockIDAtHeight. intros E.
  destruct (LRU.Get (blkHeightsCache s) (GetEntryKey h)) as [[v|] c].
  - inversion E; reflexivity.
  - destruct (Database.Get (db s) (GetEntryKey h)) as [bytes|e].
    + destruct (ToID bytes); inversion E; reflexivity.
    + destruct e; inversion E; reflexivity.
Qed.

(** C1. The probe: with a checkpoint it reports a repair from that
    checkpoint; with no checkpoint and the entry of the last accepted
    height found it sets the done flag and reports no repair; with no
    checkpoint and that entry not found it stages
    [checkpoint = lastAcceptedBlkID] in the batch and reports a repair from
    the last accepted block. The probe returns an error only when one of
    its three reads returned an error other than not-found. *)
Theorem shouldRepair_cases (hi : heightIndexer) :
  (forall cp,
      GetCheckpoint (indexState hi) = Ok cp ->
      exists hi',
        shouldRepair hi = ((true, cp, None), hi')
        /\ jobDone hi' = jobDone hi
        /\ batch hi' = batch hi
        /\ indexState hi' = indexState hi)
  /\ (forall blk id s,
      GetCheckpoint (indexState hi) = Err ErrNotFound ->
      GetBlk (server hi) (LastAcceptedBlkID (server hi)) = Ok blk ->
      GetBlockIDAtHeight (indexState hi) (blk_Height blk) = (Ok id, s) ->
      exists hi',
        shouldRepair hi = ((false, ids_Empty, None), hi')
        /\ IsRepaired hi' = true
        /\ batch hi' = batch hi
        /\ db (indexState hi') = db (indexState hi))
  /\ (forall blk s,
      GetCheckpoint (indexState hi) = Err ErrNotFound ->
      GetBlk (server hi) (LastAcceptedBlkID (server hi)) = Ok blk ->
      GetBlockIDAtHeight (indexState hi) (blk_Height blk) = (Err ErrNotFound, s) ->
      exists hi',
        shouldRepair hi = ((true, LastAcceptedBlkID (server hi), None), hi')
        /\ Batch.writes (batch hi') =
           Batch.writes (batch hi)
             ++ [Batch.OpPut GetCheckpointKey (LastAcceptedBlkID (server hi))]
        /\ jobDone hi' = jobDone hi
        /\ db (indexState hi') = db (indexState hi))
  /\ (forall need st e hi',
      shouldRepair hi = ((need, st, Some e), hi') ->
      (GetCheckpoint (indexState hi) = Err e /\ e <> ErrNotFound)
      \/ (GetCheckpoint (indexState hi) = Err ErrNotFound
          /\ GetBlk (server hi) (LastAcceptedBlkID (server hi)) = Err e)
      \/ (GetCheckpoint (indexState hi) = Err ErrNotFound
          /\ exists blk s,
               GetBlk (server hi) (LastAcceptedBlkID (server hi)) = Ok blk
               /\ GetBlockIDAtHeight (indexState hi) (blk_Height blk) = (Err e, s)
               /\ e <> ErrNotFound)).
Proof.
  split; [|split; [|split]]; cycle 3.
  { intros need st e hi' E. unfold shouldRepair in E.
    destruct (GetCheckpoint (indexState hi)) as [cp|e0] eqn:Hcp; [discriminate|].
    destruct e0; try (left; inversion E; subst; split; [reflexivity | discriminate]).
    right. simpl in E.
    destruct (GetBlk (server hi) (LastAcceptedBlkID (server hi))) as [blk|e1] eqn:Hblk.
    - right. split; [reflexivity|]. unfold getBlockIDAtHeight in E. simpl in E.
      destruct (GetBlockIDAtHeight (indexState hi) (blk_Height blk)) as [[id|e2] s] eqn:Hget;
        [discriminate|].
      pose proof (GetCheckpoint_NotFound_open _ Hcp) as Hopen.
      pose proof (GetBlockIDAtHeight_db _ _ _ _ Hget) as Hdb.
      exists blk, s. split; [reflexivity|].
      destruct e2;
        try (inversion E; subst; split; [exact Hget | discriminate]).
      unfold batchPut, Batch.Put in E. simpl in E. rewrite Hdb, Hopen in E.
      discriminate.
    - left. inversion E; subst. split; reflexivity. }
  - intros cp Hcp. unfold shouldRepair. rewrite Hcp.
    eexists. split; [reflexivity|]. simpl. auto.
  - intros blk id s Hcp Hblk Hget. unfold shouldRepair. rewrite Hcp.
    simpl. rewrite Hblk. unfold getBlockIDAtHeight. simpl. rewrite Hget.
    eexists. split; [reflexivity|]. simpl.
    repeat split. eapply GetBlockIDAtHeight_db; eassumption.
  - intros blk s Hcp Hblk Hget. unfold shouldRepair. rewrite Hcp.
    simpl. rewrite Hblk. unfold getBlockIDAtHeight. simpl. rewrite Hget.
    pose proof (GetCheckpoint_NotFound_open _ Hcp) as Hopen.
    pose proof (GetBlockIDAtHeight_db _ _ _ _ Hget) as Hdb.
    unfold batchPut, Batch.Put. simpl. rewrite Hdb, Hopen.
    eexists. split; [reflexivity|]. simpl. auto.
Qed.

Lemma shouldRepair_cases_witness :
  (exists hi', shouldRepair (checkpointedIndexer 3 2) = ((true, chainID 2, None), hi'))
  /\ (exists hi', shouldRepair (indexedIndexer 3) = ((false, ids_Empty, None), hi')
                  /\ IsRepaired hi' = true)
  /\ (exists hi', shouldRepair (freshIndexer 3 0) = ((true, chainID 3, None), hi')
                  /\ Batch.writes (batch hi') = [Batch.OpPut GetCheckpointKey (chainID 3)]).
Proof.
  split; [|split].
  - destruct (proj1 (shouldRepair_cases (checkpointedIndexer 3 2)) (chainID 2))
      as (hi' & E & _).
    + vm_compute. reflexivity.
    + exists hi'. exact E.
  - destruct (proj1 (proj2 (shouldRepair_cases (indexedIndexer 3)))
                (chainBlock 3) (chainID 3)
                (GetBlockIDAtHeight (indexState (indexedIndexer 3)) 3).2)
      as (hi' & E & D & _).
    + vm_compute. reflexivity.
    + vm_compute. reflexivity.
    + vm_compute. reflexivity.
    + exists hi'. split; assumption.
  - destruct (proj1 (proj2 (proj2 (shouldRepair_cases (freshIndexer 3 0))))
                (chainBlock 3)
                (GetBlockIDAtHeight (indexState (freshIndexer 3 0)) 3).2)
      as (hi' & E & W & _).
    + vm_compute. reflexivity.
    + vm_compute. reflexivity.
    + vm_compute. reflexivity.
    + exists hi'. split; [exact E | exact W].
Defined.

End Probe.


(** ** The backward walk *)

Section Walk.
Import HeightIndexKeys HeightIndex Logging Indexer Fixtures.

Lemma doRepair_app (n m : nat) (hi hi1 : heightIndexer) (start cur : ID) :
  doRepair n hi start = Running hi1 cur ->
  doRepair (n + m) hi start = doRepair m hi1 cur.
Proof.
  revert hi start. induction n as [|n IH]; intros hi start E; simpl in *.
  - inversion E; reflexivity.
  - destruct (doRepair_iter hi start) as [err hi'| |hi' next]; try discriminate.
    apply IH. exact E.
Qed.

Lemma doRepair_iter_missing (hi : heightIndexer) (cur : ID) :
  GetBlk (server hi) cur = Err ErrNotFound ->
  Database.closed (db (indexState hi)) = false ->
  doRepair_iter hi cur =
    Returned None
      (logf Info "Block indexing by height: completed. Indexed %d blocks, duration %v"
         (with_jobDone
            (with_batch hi
               (Batch.mk (Batch.writes (batch hi) ++ [Batch.OpDelete GetCheckpointKey])
                         (Batch.size (batch hi) + Z.of_nat (length GetCheckpointKey))))
            true)).
Proof.
  intros Hblk Hopen. unfold doRepair_iter. rewrite Hblk.
  unfold batchDelete, Batch.Delete. rewrite Hopen. reflexivity.
Qed.

Lemma batchPut_indexState (hi hi' : heightIndexer) (k v : list Z) (e : option error) :
  batchPut hi k v = (hi', e) -> indexState hi' = indexState hi /\ server hi' = server hi.
Proof.
  unfold batchPut. destruct (Batch.Put _ _ _ _) as [b err].
  intros E; inversion E; subst; simpl; auto.
Qed.

Lemma doCheckpoint_indexState (hi hi' : heightIndexer) (blk : Block) (e : option error) :
  doCheckpoint hi blk = (hi', e) -> indexState hi' = indexState hi /\ server hi' = server hi.
Proof.
  unfold doCheckpoint. intros E.
  destruct (GetBlk (server hi) (blk_Parent blk)) as [cb|[]].
  - destruct (batchPut hi GetCheckpointKey (blk_ID cb)) as [h1 [err|]] eqn:P;
      apply batchPut_indexState in P; inversion E; subst; simpl; tauto.
  - inversion E; subst; auto.
  - inversion E; subst; auto.
  - inversion E; subst; auto.
  - inversion E; subst; auto.
Qed.

Lemma batchWrite_closed (hi hi' : heightIndexer) (e : option error) :
  batchWrite hi = (hi', e) ->
  Database.closed (db (indexState hi')) = Database.closed (db (indexState hi))
  /\ server hi' = server hi.
Proof.
  unfold batchWrite, Batch.Write. intros E.
  destruct (Database.closed (db (indexState hi))) eqn:C;
    inversion E; subst; simpl; auto.
Qed.

Lemma getBlockIDAtHeight_closed (hi hi' : heightIndexer) (h : Z) (r : result ID) :
  getBlockIDAtHeight hi h = (r, hi') ->
  db (indexState hi') = db (indexState hi) /\ server hi' = server hi.
Proof.
  unfold getBlockIDAtHeight. intros E.
  destruct (GetBlockIDAtHeight (indexState hi) h) as [r' s] eqn:G.
  apply GetBlockIDAtHeight_db in G. inversion E; subst; simpl; auto.
Qed.

(** The store stays open or closed through a turn of the loop. *)
Lemma doRepair_iter_closed (hi hi' : heightIndexer) (cur next : ID) :
  doRepair_iter hi cur = Running hi' next ->
  Database.closed (db (indexState hi')) = Database.closed (db (indexState hi)).
Proof.
  unfold doRepair_iter. intros E.
  destruct (GetBlk (server hi) cur) as [blk|[]]; try discriminate.
  - destruct (getBlockIDAtHeight hi (blk_Height blk)) as [[v|e] h1] eqn:G;
      apply getBlockIDAtHeight_closed in G; destruct G as [G _].
    + destruct (AssertTrue false _ (log h1)); [|discriminate].
      inversion E; subst; simpl. rewrite G. reflexivity.
    + destruct e; try discriminate.
      destruct (batchPut h1 _ cur) as [h2 [err|]] eqn:P; [discriminate|].
      apply batchPut_indexState in P. destruct P as [P _].
      destruct (Batch.Size (batch h2) >? commitMaxSize h2).
      * destruct (doCheckpoint h2 blk) as [h3 [err|]] eqn:D; [discriminate|].
        apply doCheckpoint_indexState in D. destruct D as [D _].
        destruct (batchWrite h3) as [h4 [err|]] eqn:W; [discriminate|].
        apply batchWrite_closed in W. destruct W as [W _].
        inversion E; subst; simpl. rewrite W, D, P, G. reflexivity.
      * inversion E; subst. rewrite P, G. reflexivity.
  - destruct (batchDelete hi GetCheckpointKey) as [h1 [err|]]; discriminate.
Qed.

Lemma doRepair_closed (n : nat) (hi hi' : heightIndexer) (start cur : ID) :
  doRepair n hi start = Running hi' cur ->
  Database.closed (db (indexState hi')) = Database.closed (db (indexState hi)).
Proof.
  revert hi start. induction n as [|n IH]; intros hi start E; simpl in E.
  - inversion E; reflexivity.
  - destruct (doRepair_iter hi start) as [err h1| |h1 next] eqn:I; try discriminate.
    apply doRepair_iter_closed in I. rewrite <- I. eapply IH; eassumption.
Qed.

Lemma fold_apply_delete (ws : list Batch.op) (k : list Z) (m : gmap (list Z) (list Z)) :
  fold_left Batch.apply (ws ++ [Batch.OpDelete k]) m !! k = None.
Proof.
  rewrite fold_left_app. simpl. apply lookup_delete_eq.
Qed.

(** Writing a batch whose last operation deletes the checkpoint leaves no
    checkpoint in the store. *)
Lemma batchWrite_deletes_checkpoint (hi : heightIndexer) (ws : list Batch.op) :
  Database.closed (db (indexState hi)) = false ->
  Batch.writes (batch hi) = ws ++ [Batch.OpDelete GetCheckpointKey] ->
  exists hi',
    batchWrite hi = (hi', None)
    /\ GetCheckpoint (indexState hi') = Err ErrNotFound
    /\ jobDone hi' = jobDone hi.
Proof.
  intros Hopen Hws. unfold batchWrite, Batch.Write. rewrite Hopen.
  eexists. split; [reflexivity|]. split; [|reflexivity].
  unfold GetCheckpoint, Database.Get. simpl.
  rewrite Hws, fold_apply_delete. reflexivity.
Qed.

(** C2. When the walk finds no block under its cursor (genesis has been
    passed), the run ends well: [doRepair] stages the deletion of the
    checkpoint key, flips the done flag and returns [nil];
    [RepairHeightIndex] then commits the batch, after which
    [GetCheckpoint] answers not-found and [IsRepaired] is true. *)
Theorem repair_terminates_at_missing_block
    (n m : nat) (hi hi0 hi1 hiN : heightIndexer) (start cur : ID) :
  shouldRepair hi = ((true, start, None), hi0) ->
  batchWrite hi0 = (hi1, None) ->
  doRepair n hi1 start = Running hiN cur ->
  GetBlk (server hiN) cur = Err ErrNotFound ->
  exists hiD hiF,
    doRepair (n + S m) hi1 start = Returned None hiD
    /\ Batch.writes (batch hiD) =
       Batch.writes (batch hiN) ++ [Batch.OpDelete GetCheckpointKey]
    /\ jobDone hiD = true
    /\ batchWrite hiD = (hiF, None)
    /\ RepairHeightIndex (n + S m) hi = Returned None hiF
    /\ GetCheckpoint (indexState hiF) = Err ErrNotFound
    /\ IsRepaired hiF = true.
Proof.
  intros Hprobe Hw Hwalk Hblk.
  assert (Hopen : Database.closed (db (indexState hiN)) = false).
  { rewrite (doRepair_closed _ _ _ _ _ Hwalk).
    unfold batchWrite, Batch.Write in Hw.
    destruct (Database.closed (db (indexState hi0))) eqn:C.
    - inversion Hw.
    - inversion Hw; subst; reflexivity. }
  pose proof (doRepair_iter_missing hiN cur Hblk Hopen) as Hit.
  set (hiD := logf Info "Block indexing by height: completed. Indexed %d blocks, duration %v"
         (with_jobDone
            (with_batch hiN
               (Batch.mk (Batch.writes (batch hiN) ++ [Batch.OpDelete GetCheckpointKey])
                         (Batch.size (batch hiN) + Z.of_nat (length GetCheckpointKey))))
            true)) in *.
  assert (Hrun : doRepair (n + S m) hi1 start = Returned None hiD).
  { rewrite (doRepair_app n (S m) _ _ _ _ Hwalk). simpl. rewrite Hit. reflexivity. }
  destruct (batchWrite_deletes_checkpoint hiD (Batch.writes (batch hiN)))
    as (hiF & HwF & Hcp & Hdone); [exact Hopen | reflexivity |].
  exists hiD, hiF.
  split; [exact Hrun|]. split; [reflexivity|]. split; [reflexivity|].
  split; [exact HwF|]. split.
  - unfold RepairHeightIndex. rewrite Hprobe, Hw. simpl. rewrite Hrun, HwF.
    reflexivity.
  - split; [exact Hcp|]. unfold IsRepaired. rewrite Hdone. reflexivity.
Qed.

Lemma repair_terminates_at_missing_block_witness :
  exists hiF,
    RepairHeightIndex 5 (freshIndexer 3 0) = Returned None hiF
    /\ GetCheckpoint (indexState hiF) = Err ErrNotFound
    /\ IsRepaired hiF = true.
Proof.
  destruct (repair_terminates_at_missing_block 4 0
              (freshIndexer 3 0)
              (shouldRepair (freshIndexer 3 0)).2
              (afterProbe (freshIndexer 3 0))
              (match doRepair 4 (afterProbe (freshIndexer 3 0)) (chainID 3) with
               | Running h _ => h
               | _ => freshIndexer 3 0
               end)
              (chainID 3) ids_Empty)
    as (hiD & hiF & _ & _ & _ & _ & R & C & D).
  - vm_compute. reflexivity.
  - vm_compute. reflexivity.
  - vm_compute. reflexivity.
  - vm_compute. reflexivity.
  - exists hiF. split; [exact R|]. split; [exact C | exact D].
Defined.

(** C10, as the code has it. [doRepair] flips the done flag in the turn
    that finds no block, and only stages the deletion of the checkpoint:
    from its return until the caller commits, [IsRepaired] is true while
    [GetCheckpoint] still answers the checkpoint committed last. The
    store is left as the last commit made it, so a crash in that window
    keeps the stale checkpoint and the next start resumes from it. *)
Theorem done_flag_precedes_checkpoint_removal
    (n m : nat) (hi hiN : heightIndexer) (start cur cp : ID) :
  doRepair n hi start = Running hiN cur ->
  GetBlk (server hiN) cur = Err ErrNotFound ->
  GetCheckpoint (indexState hiN) = Ok cp ->
  exists hiD,
    doRepair (n + S m) hi start = Returned None hiD
    /\ IsRepaired hiD = true
    /\ GetCheckpoint (indexState hiD) = Ok cp
    /\ indexState hiD = indexState hiN
    /\ last (Batch.writes (batch hiD)) = Some (Batch.OpDelete GetCheckpointKey)
    /\ (shouldRepair (restart hiD)).1 = (true, cp, None).
Proof.
  intros Hwalk Hblk Hcp.
  assert (Hopen : Database.closed (db (indexState hiN)) = false).
  { unfold GetCheckpoint, Database.Get in Hcp.
    destruct (Database.closed (db (indexState hiN))); [discriminate | reflexivity]. }
  pose proof (doRepair_iter_missing hiN cur Hblk Hopen) as Hit.
  eexists. split.
  { rewrite (doRepair_app n (S m) _ _ _ _ Hwalk). simpl. rewrite Hit. reflexivity. }
  split; [reflexivity|]. split; [exact Hcp|]. split; [reflexivity|]. split.
  - simpl. apply last_snoc.
  - unfold shouldRepair, restart. simpl.
    unfold GetCheckpoint in *. simpl. rewrite Hcp. reflexivity.
Qed.

Lemma done_flag_precedes_checkpoint_removal_witness :
  exists hiD,
    beforeFinalCommit 5 (freshIndexer 3 0) = Some hiD
    /\ IsRepaired hiD = true
    /\ GetCheckpoint (indexState hiD) = Ok (chainID 0).
Proof.
  destruct (done_flag_precedes_checkpoint_removal 4 0
              (afterProbe (freshIndexer 3 0))
              (match doRepair 4 (afterProbe (freshIndexer 3 0)) (chainID 3) with
               | Running h _ => h
               | _ => freshIndexer 3 0
               end)
              (chainID 3) ids_Empty (chainID 0))
    as (hiD & R & D & C & _).
  - vm_compute. reflexivity.
  - vm_compute. reflexivity.
  - vm_compute. reflexivity.
  - exists hiD. split; [|split; [exact D | exact C]].
    unfold beforeFinalCommit.
    change (probeStart (freshIndexer 3 0)) with (chainID 3).
    change (4 + 1)%nat with 5%nat in R. rewrite R. reflexivity.
Defined.

(** C10 as worded fails on its last clause: with the default commit
    size cap nothing of a short chain is committed before the final
    batch, so what a crash in the window leaves is the checkpoint and no
    index entry at all. *)
Lemma crash_window_index_not_built :
  exists hiD,
    beforeFinalCommit 5 (freshIndexer 3 defaultCommitSizeCap) = Some hiD
    /\ IsRepaired hiD = true
    /\ GetCheckpoint (indexState hiD) = Ok (chainID 3)
    /\ fullyBuilt (db (indexState hiD)) 3 = false
    /\ Database.Get (db (indexState hiD)) (GetEntryKey 3) = Err ErrNotFound.
Proof.
  eexists. split; [vm_compute; reflexivity|].
  repeat split; vm_compute; reflexivity.
Qed.

(** Once a height is answered by the index it stays answered: a hit puts
    the entry in front of the cache, and the store is not touched. *)
Lemma GetBlockIDAtHeight_stable (s s1 : index) (h : Z) (id : ID) :
  GetBlockIDAtHeight s h = (Ok id, s1) ->
  exists s2, GetBlockIDAtHeight s1 h = (Ok id, s2).
Proof.
  unfold GetBlockIDAtHeight, LRU.Get. generalize (GetEntryKey h). intros key E.
  destruct (LRU.find key (LRU.entries (blkHeightsCache s))) as [v|] eqn:F.
  - inversion E; subst; clear E. simpl.
    rewrite decide_True by reflexivity. eexists; reflexivity.
  - destruct (Database.Get (db s) key) as [bytes|e] eqn:G.
    + destruct (ToID bytes) as [res|e] eqn:T; [|discriminate].
      inversion E; subst; clear E. simpl.
      destruct (LRU.Size (blkHeightsCache s)) as [|k]; simpl.
      * rewrite G, T. eexists; reflexivity.
      * rewrite decide_True by reflexivity. eexists; reflexivity.
    + destruct e; discriminate.
Qed.

Lemma doRepair_iter_indexed (hi : heightIndexer) (cur : ID) (blk : Block) (id : ID) (s : index) :
  GetBlk (server hi) cur = Ok blk ->
  GetBlockIDAtHeight (indexState hi) (blk_Height blk) = (Ok id, s) ->
  assertions (log hi) = false ->
  doRepair_iter hi cur =
    Running (logf Error "unexpected height index entry at height %d" (with_indexState hi s))
            cur.
Proof.
  intros Hblk Hget Hlog. unfold doRepair_iter. rewrite Hblk.
  unfold getBlockIDAtHeight. rewrite Hget. simpl.
  unfold AssertTrue. rewrite Hlog. reflexivity.
Qed.

(** C3, what the code does: when the height of the block under the
    cursor is already answered by the index, the turn records the failed
    assertion and, the logger returning, goes round again with the same
    cursor; however many turns are followed the walk has not returned,
    nothing more is staged, and one more error line is recorded per
    turn. *)
Theorem doRepair_indexed_block_never_returns
    (hi : heightIndexer) (cur : ID) (blk : Block) (id : ID) (s : index) :
  GetBlk (server hi) cur = Ok blk ->
  GetBlockIDAtHeight (indexState hi) (blk_Height blk) = (Ok id, s) ->
  assertions (log hi) = false ->
  forall fuel, exists hi',
    doRepair fuel hi cur = Running hi' cur
    /\ batch hi' = batch hi
    /\ jobDone hi' = jobDone hi
    /\ lines (log hi') =
       lines (log hi) ++ repeat (Error, "unexpected height index entry at height %d") fuel.
Proof.
  intros Hblk Hget Hlog fuel. revert hi s Hblk Hget Hlog.
  induction fuel as [|fuel IH]; intros hi s Hblk Hget Hlog.
  - exists hi. simpl. rewrite app_nil_r. auto.
  - simpl. rewrite (doRepair_iter_indexed hi cur blk id s Hblk Hget Hlog).
    destruct (GetBlockIDAtHeight_stable _ _ _ _ Hget) as [s2 Hget2].
    destruct (IH (logf Error "unexpected height index entry at height %d"
                    (with_indexState hi s)) s2) as (hi' & R & B & J & L).
    + exact Hblk.
    + exact Hget2.
    + exact Hlog.
    + exists hi'. split; [exact R|]. split; [exact B|]. split; [exact J|].
      rewrite L. simpl. rewrite <- app_assoc. reflexivity.
Qed.

Lemma doRepair_indexed_block_never_returns_witness :
  exists hi',
    doRepair 1000 (afterProbe resumedIndexer) (chainID 0) = Running hi' (chainID 0)
    /\ batch hi' = batch (afterProbe resumedIndexer).
Proof.
  destruct (doRepair_indexed_block_never_returns
              (afterProbe resumedIndexer) (chainID 0) (chainBlock 0) (chainID 0)
              (GetBlockIDAtHeight (indexState (afterProbe resumedIndexer)) 0).2)
    with (fuel := 1000%nat) as (hi' & R & B & _).
  - vm_compute. reflexivity.
  - vm_compute. reflexivity.
  - vm_compute. reflexivity.
  - exists hi'. split; [exact R | exact B].
Defined.

(** The restart after the interrupted run: the probe finds the stale
    checkpoint, and [RepairHeightIndex] is still walking, at the same
    block, after a thousand turns. With a logger that panics on failed
    assertions the first turn panics instead. *)
Lemma RepairHeightIndex_resumed_still_running :
  (shouldRepair resumedIndexer).1 = (true, chainID 0, None)
  /\ exists hi',
       RepairHeightIndex 1000 resumedIndexer = Running hi' (chainID 0)
       /\ jobDone hi' = false
       /\ Batch.writes (batch hi') = [].
Proof.
  split; [vm_compute; reflexivity|].
  eexists. split; [vm_compute; reflexivity|].
  split; vm_compute; reflexivity.
Qed.

Lemma doRepair_iter_indexed_panics (hi : heightIndexer) (cur : ID) (blk : Block) (id : ID) (s : index) :
  GetBlk (server hi) cur = Ok blk ->
  GetBlockIDAtHeight (indexState hi) (blk_Height blk) = (Ok id, s) ->
  assertions (log hi) = true ->
  forall fuel, doRepair (S fuel) hi cur = Panicked.
Proof.
  intros Hblk Hget Hlog fuel. simpl. unfold doRepair_iter. rewrite Hblk.
  unfold getBlockIDAtHeight. rewrite Hget. simpl.
  unfold AssertTrue. rewrite Hlog. reflexivity.
Qed.

(** The other half of the turn: a block whose height the index does not
    answer is staged and the walk moves to its parent (here without a
    commit, the batch staying within the size cap). *)
Lemma doRepair_iter_unindexed_continues
    (hi : heightIndexer) (cur : ID) (blk : Block) (s : index) :
  GetBlk (server hi) cur = Ok blk ->
  GetBlockIDAtHeight (indexState hi) (blk_Height blk) = (Err ErrNotFound, s) ->
  Database.closed (db (indexState hi)) = false ->
  Batch.size (batch hi) + Z.of_nat (length (GetEntryKey (blk_Height blk)))
    + Z.of_nat (length cur) <= commitMaxSize hi ->
  exists hi',
    doRepair_iter hi cur = Running hi' (blk_Parent blk)
    /\ Batch.writes (batch hi') =
       Batch.writes (batch hi) ++ [Batch.OpPut (GetEntryKey (blk_Height blk)) cur]
    /\ jobDone hi' = jobDone hi.
Proof.
  intros Hblk Hget Hopen Hsize.
  pose proof (GetBlockIDAtHeight_db _ _ _ _ Hget) as Hdb.
  unfold doRepair_iter. rewrite Hblk.
  unfold getBlockIDAtHeight. rewrite Hget.
  unfold batchPut, Batch.Put. generalize dependent (GetEntryKey (blk_Height blk)).
  intros key Hsize. cbn [with_indexState indexState batch]. rewrite Hdb, Hopen.
  cbn [with_batch batch commitMaxSize Batch.Size Batch.size].
  destruct (_ >? _) eqn:G; [apply Z.gtb_lt in G; cbn [commitMaxSize with_indexState] in G; lia|].
  eexists. split; [reflexivity|]. cbn [batch with_batch jobDone Batch.writes]. auto.
Qed.

End Walk.

(** ** Reads and writes of the height index *)

Section IndexReadWrite.
Import HeightIndexKeys HeightIndex Logging Indexer ProposerVM Fixtures.

Lemma LRU_find_Put (c : LRU.t) (key : list Z) (v : ID) :
  (0 < LRU.Size c)%nat -> LRU.find key (LRU.entries (LRU.Put c key v)) = Some v.
Proof.
  intros Hsz. unfold LRU.Put. simpl.
  destruct (LRU.Size c) as [|k]; [lia|]. simpl.
  rewrite decide_True by reflexivity. reflexivity.
Qed.

(** C6, what the code does: [SetBlockIDAtHeight] fills the cache before
    the store is written and whatever the write answers. On a store whose
    put fails the call returns the error, the store is left as it was, and
    the next [GetBlockIDAtHeight] of that height answers the identifier
    from the cache. *)
Theorem SetBlockIDAtHeight_failed_put_stays_cached (hi : index) (h : Z) (id : ID) :
  Database.closed (db hi) = true ->
  (0 < LRU.Size (blkHeightsCache hi))%nat ->
  exists hi' hi'',
    SetBlockIDAtHeight hi h id = (hi', Some ErrClosed)
    /\ db hi' = db hi
    /\ GetBlockIDAtHeight hi' h = (Ok id, hi'').
Proof.
  intros Hclosed Hsz.
  unfold SetBlockIDAtHeight, GetBlockIDAtHeight, Database.Put.
  generalize (GetEntryKey h). intros key. rewrite Hclosed.
  eexists. eexists. split; [reflexivity|]. split; [reflexivity|].
  cbn [blkHeightsCache db]. unfold LRU.Get.
  rewrite (LRU_find_Put _ key id Hsz). reflexivity.
Qed.

Lemma SetBlockIDAtHeight_failed_put_stays_cached_witness :
  exists hi',
    SetBlockIDAtHeight closedIndex 7 (chainID 7) = (hi', Some ErrClosed)
    /\ (GetBlockIDAtHeight hi' 7).1 = Ok (chainID 7)
    /\ Database.data (db hi') !! GetEntryKey 7 = None.
Proof.
  destruct (SetBlockIDAtHeight_failed_put_stays_cached closedIndex 7 (chainID 7))
    as (hi' & hi'' & E & D & G).
  - reflexivity.
  - unfold closedIndex, HeightIndex.New, cacheSize. simpl. lia.
  - exists hi'. split; [exact E|]. split.
    + rewrite G. reflexivity.
    + rewrite D. reflexivity.
Defined.

Lemma GetForkHeight_open (s : index) (fh : Z) :
  GetForkHeight s = Ok fh -> Database.closed (db s) = false.
Proof.
  unfold GetForkHeight, Database.GetUInt64, Database.Get.
  destruct (Database.closed (db s)); [discriminate | reflexivity].
Qed.





End IndexReadWrite.

(** ** Quota accounting of the throttled queue *)

Section ThrottledQuota.
Import PeerQueue.
Context {T : Type} `{OutboundMsgThrottler T}.

Lemma acquiredMsgs_snoc (cs : list call) (c : call) :
  acquiredMsgs (cs ++ [c]) =
  acquiredMsgs cs ++ match c with CallAcquire m true => [m] | _ => [] end.
Proof. unfold acquiredMsgs. rewrite flat_map_app. simpl. rewrite app_nil_r. reflexivity. Qed.

Lemma releasedMsgs_snoc (cs : list call) (c : call) :
  releasedMsgs (cs ++ [c]) =
  releasedMsgs cs ++ match c with CallRelease m => [m] | _ => [] end.
Proof. unfold releasedMsgs. rewrite flat_map_app. simpl. rewrite app_nil_r. reflexivity. Qed.

Lemma balanced_new (nodeID : NodeID) (th : T) :
  balanced (NewThrottledMessageQueue nodeID th).
Proof. split; [reflexivity | reflexivity]. Qed.

Lemma calls_release (q : throttledMessageQueue T) (m : OutboundMessage) :
  calls (release q m) = calls q ++ [CallRelease m].
Proof. reflexivity. Qed.

Lemma calls_sendFailed (q : throttledMessageQueue T) (m : OutboundMessage) :
  calls (sendFailed q m) = calls q ++ [CallSendFailed m].
Proof. reflexivity. Qed.

Lemma balanced_dequeue (q : throttledMessageQueue T) (msg : OutboundMessage)
    (rest : list OutboundMessage) :
  balanced q -> queue q = msg :: rest -> balanced (release (with_queue q rest) msg).
Proof.
  intros [Hp Hc] Hq. split.
  - rewrite calls_release. cbn [queue release with_queue calls].
    rewrite acquiredMsgs_snoc, releasedMsgs_snoc.
    rewrite app_nil_r, Hp, Hq, <- app_assoc. reflexivity.
  - cbn [closed queue release with_queue]. intros C. specialize (Hc C).
    rewrite Hc in Hq. discriminate.
Qed.

Lemma Close_fold (l : list OutboundMessage) (q : throttledMessageQueue T) :
  acquiredMsgs (calls (fold_left (fun q msg => sendFailed (release q msg) msg) l q))
    = acquiredMsgs (calls q)
  /\ releasedMsgs (calls (fold_left (fun q msg => sendFailed (release q msg) msg) l q))
    = releasedMsgs (calls q) ++ l
  /\ closed (fold_left (fun q msg => sendFailed (release q msg) msg) l q) = closed q.
Proof.
  revert q. induction l as [|m l IH]; intros q; cbn [fold_left].
  - rewrite app_nil_r. auto.
  - destruct (IH (sendFailed (release q m) m)) as (A & R & C).
    rewrite A, R, C. rewrite calls_sendFailed, calls_release.
    rewrite !acquiredMsgs_snoc, !releasedMsgs_snoc.
    rewrite !app_nil_r, <- app_assoc. auto.
Qed.

Lemma balanced_step (q : throttledMessageQueue T) (o : op) :
  balanced q -> balanced (step q o).
Proof.
  intros Hb. destruct o as [msg| | |]; cbn [step].
  - unfold Push.
    destruct (Acquire (outboundMsgThrottler q) msg (id q)) as [ok th].
    destruct Hb as [Hp Hc]. destruct ok; cbn [negb closed snd].
    + destruct (closed q) eqn:C; cbn [snd].
      * split; [|intros _; apply Hc; reflexivity].
        rewrite calls_sendFailed, calls_release. cbn [calls queue sendFailed release].
        rewrite !acquiredMsgs_snoc, !releasedMsgs_snoc.
        rewrite !app_nil_r, Hp, (Hc eq_refl), !app_nil_r. reflexivity.
      * split; [|cbn [closed with_queue]; discriminate].
        cbn [calls queue with_queue].
        rewrite acquiredMsgs_snoc, releasedMsgs_snoc.
        rewrite app_nil_r, Hp, app_assoc. reflexivity.
    + split; [|exact Hc].
      rewrite calls_sendFailed. cbn [calls queue sendFailed].
      rewrite !acquiredMsgs_snoc, !releasedMsgs_snoc.
      rewrite !app_nil_r. exact Hp.
  - unfold Pop. destruct (closed q) eqn:C; [exact Hb|].
    destruct (queue q) as [|msg rest] eqn:Q; [exact Hb|].
    cbn [snd]. apply balanced_dequeue; assumption.
  - unfold PopWithoutBlocking.
    destruct (queue q) as [|msg rest] eqn:Q; [exact Hb|].
    cbn [snd]. apply balanced_dequeue; assumption.
  - unfold Close. destruct Hb as [Hp Hc].
    pose proof (Close_fold (queue q)
      (mkThrottled (id q) (outboundMsgThrottler q) true (queue q) (calls q)))
      as (A & R & C).
    cbn [calls queue closed] in *. split.
    + cbn [calls queue with_queue]. rewrite A, R, app_nil_r. exact Hp.
    + reflexivity.
Qed.

Lemma balanced_run (ops : list op) (q : throttledMessageQueue T) :
  balanced q -> balanced (run q ops).
Proof.
  revert q. induction ops as [|o ops IH]; intros q Hb; simpl.
  - exact Hb.
  - apply IH. apply balanced_step. exact Hb.
Qed.

Lemma closed_Close (q : throttledMessageQueue T) : closed (Close q) = true.
Proof.
  unfold Close.
  pose proof (Close_fold (queue q)
    (mkThrottled (id q) (outboundMsgThrottler q) true (queue q) (calls q)))
    as (_ & _ & C').
  cbn [closed with_queue queue] in *. exact C'.
Qed.

Lemma closed_step (q : throttledMessageQueue T) (o : op) :
  closed q = true -> closed (step q o) = true.
Proof.
  intros C. destruct o as [msg| | |]; cbn [step].
  - unfold Push. destruct (Acquire _ _ _) as [[] th]; cbn [negb closed snd];
      rewrite ?C; reflexivity || exact C.
  - unfold Pop. rewrite C. exact C.
  - unfold PopWithoutBlocking. destruct (queue q); exact C.
  - apply closed_Close.
Qed.

Lemma closed_after_Close (ops : list op) (q : throttledMessageQueue T) :
  closed q = true \/ In OpClose ops -> closed (run q ops) = true.
Proof.
  revert q. induction ops as [|o ops IH]; intros q [C|I]; simpl.
  - exact C.
  - destruct I.
  - apply IH. left. apply closed_step. exact C.
  - apply IH. destruct I as [->|I]; [left | right; exact I].
    apply closed_Close.
Qed.

End ThrottledQuota.

Section ThrottledLifecycle.
Import PeerQueue.

(** C5, as the code has it. Along any sequence of [Push], [Pop],
    [PopWithoutBlocking] and [Close] on a new throttled queue, the
    reservations granted are exactly those given back plus those of the
    messages still queued, so the number of successful [Acquire] calls is
    the number of [Release] calls plus the length of the queue; the two
    numbers are equal whenever the queue is closed, in particular after any
    sequence that contains a [Close]. *)
Theorem throttled_quota_balance
    (T : Type) (Th : OutboundMsgThrottler T)
    (nodeID : NodeID) (th : T) (ops : list op) :
  let q := run (NewThrottledMessageQueue nodeID th) ops in
  acquiredMsgs (calls q)
    ≡ₚ releasedMsgs (calls q) ++ queue q
  /\ acquires q = (releases q + length (queue q))%nat
  /\ (closed q = true -> acquires q = releases q)
  /\ (In OpClose ops -> acquires q = releases q).
Proof.
  intros q.
  destruct (balanced_run ops _ (balanced_new nodeID th)) as [Hp Hc]. fold q in Hp, Hc.
  assert (Hn : acquires q
               = (releases q + length (queue q))%nat).
  { unfold acquires, releases. rewrite Hp, length_app. reflexivity. }
  assert (Hcl : closed q = true -> acquires q = releases q).
  { intros C. rewrite Hn, (Hc C). simpl. lia. }
  split; [exact Hp|]. split; [exact Hn|]. split; [exact Hcl|].
  intros I. apply Hcl. apply closed_after_Close. right. exact I.
Qed.

Lemma throttled_quota_balance_witness :
  let q := run (NewThrottledMessageQueue [] tt)
             [OpPush (mkMsg 1 [1; 2; 3]);
              OpPush (mkMsg 1 [4; 5; 6]);
              OpPop; OpClose;
              OpPush (mkMsg 1 [7])] in
  acquires q = releases q.
Proof.
  intros q.
  apply (throttled_quota_balance unit admitAll [] tt).
  simpl. auto.
Defined.

(** C5 as worded fails while a message is queued: after one admitted
    [Push] one reservation has been granted and none given back. *)
Lemma throttled_quota_open_queue :
  let q := run (NewThrottledMessageQueue [] tt)
             [OpPush (mkMsg 1 [1; 2; 3])] in
  acquires q = 1%nat /\ releases q = 0%nat
  /\ acquires q <> releases q.
Proof. vm_compute. repeat split; discriminate. Qed.

(** The drop-on-close scenario: three messages of ten bytes pushed, then
    [Close]: three reservations granted, three given back, three messages
    counted as failed, and [Pop] answers [(nil, false)]. *)
Lemma throttled_drop_on_close_scenario :
  let m := mkMsg 1 (repeat 7 10) in
  let q := run (NewThrottledMessageQueue [] 100) [OpPush m; OpPush m; OpPush m; OpClose] in
  acquires q = 3%nat /\ releases q = 3%nat
  /\ length (sendFailedMsgs (calls q)) = 3%nat
  /\ outboundMsgThrottler q = 100
  /\ (Pop q).1 = PopNone.
Proof. vm_compute. repeat split; reflexivity. Qed.

End ThrottledLifecycle.

(** ** [Push] of the blocking queue *)

Section BlockingPush.
Import PeerQueue.

Lemma pick_In {A : Type} (sched : nat) (ready : list A) (x : A) :
  pick sched ready = Some x -> In x ready.
Proof.
  unfold pick. destruct ready as [|a l]; [discriminate|].
  intros E. apply list_elem_of_In. eapply list_elem_of_lookup_2. exact E.
Qed.


Lemma In_pushReady (ctxDone : bool) (q : blockingMessageQueue) (c : pushCase) :
  In c (pushReady ctxDone q) ->
  match c with
  | CaseSend => sendReady (bqueue q) = true
  | CaseCtxDone => ctxDone = true
  | CaseClosing => closing q = true
  end.
Proof.
  unfold pushReady. intros I.
  destruct (sendReady (bqueue q)), ctxDone, (closing q), c; simpl in I;
    try reflexivity; intuition discriminate.
Qed.


Lemma drain_fold_bqueue (l : list OutboundMessage) (q : blockingMessageQueue) :
  bqueue (fold_left (fun q msg => SendFailed msg q) l q) = bqueue q.
Proof.
  revert q. induction l as [|m l IH]; intros q; simpl; [reflexivity|].
  rewrite IH. reflexivity.
Qed.





(** The cancellation scenario: buffer of one, filled; a second [Push]
    whose context is cancelled returns false and is counted once. *)
Lemma blocking_Push_cancelled_example :
  let q := brun (NewBlockingMessageQueue 1)
             [BOpPushEnter (mkMsg 1 [1]); BOpPushSelect 0 false (mkMsg 1 [1])] in
  buf (bqueue q) = [mkMsg 1 [1]]
  /\ BPush 0 false (mkMsg 1 [2]) q = PushWaiting (RLock q)
  /\ BPush 0 true (mkMsg 1 [2]) q = PushReturned false (SendFailed (mkMsg 1 [2]) q).
Proof. vm_compute. auto. Qed.

End BlockingPush.

(** ** Signals of the worker pool *)

Section PoolSignals.
Import WorkerPool.

(** C7. In the versions of the pool whose [decrementWorkers] starts with
    [t.Lock()], [releaseWorker] never sends a signal: it takes the mutex
    (or parks before, if it is held) and then parks inside
    [decrementWorkers] on the mutex it holds itself. So [handleMessage]
    never completes for any request, whatever the request returns: the
    goroutine stays parked with the mutex held, the worker counted in and
    never counted out, no signal put into the channel; and every later
    [handleMessage] or [releaseWorker] parks in that same state. *)
Theorem releaseWorker_relocks_held_mutex (t : ThreadPool) (appErr : option error) :
  releaseWorker decrementWorkers_locking t = Parked (with_locked t true)
  /\ exists t',
       handleMessage incrementWorkers_locking decrementWorkers_locking appErr t
         = Parked t'
       /\ t' = with_locked (if locked t then t else increment t) true
       /\ signalsEmitted t t' = 0
       /\ handleMessage incrementWorkers_locking decrementWorkers_locking appErr t'
          = Parked t'
       /\ releaseWorker decrementWorkers_locking t' = Parked t'.
Proof.
  split.
  - destruct t as [[|] n a sl sc cl]; reflexivity.
  - exists (with_locked (if locked t then t else increment t) true).
    destruct t as [[|] n a sl sc cl];
      (split; [reflexivity|]); (split; [reflexivity|]);
      (split; [unfold signalsEmitted; cbn; lia|]); split; reflexivity.
Qed.

Lemma releaseWorker_relocks_held_mutex_witness :
  exists t',
    handleMessage incrementWorkers_locking decrementWorkers_locking None (NewThreadPool 1)
      = Parked t'
    /\ t' = mkPool true 1 1 0 1 false
    /\ freeWorkerExists t' = false
    /\ signalsEmitted (NewThreadPool 1) t' = 0.
Proof.
  destruct (releaseWorker_relocks_held_mutex (NewThreadPool 1) None)
    as (_ & t' & R & E & S & _).
  exists t'. split; [exact R|]. split; [exact E|].
  split; [rewrite E; reflexivity | exact S].
Defined.

(** The sibling version of [utils/thread_pool.go], whose
    [decrementWorkers] takes no lock: a [releaseWorker] call on a pool
    with the mutex free and the signal channel open completes, lowers
    [active] by one (not below zero), frees the mutex, and puts one signal
    into the channel when the channel is not at capacity and none when it
    is full, so that the channel never holds more signals than its
    capacity; [handleMessage] makes exactly this one call for a request,
    whatever the request returns. *)
Theorem releaseWorker_plain_signal_accounting (t : ThreadPool) (appErr : option error) :
  locked t = false ->
  signalClosed t = false ->
  exists t',
    releaseWorker decrementWorkers_plain t = Completed t'
    /\ activeWorkers t' = Z.max 0 (activeWorkers t - 1)
    /\ locked t' = false
    /\ signalsEmitted t t' = (if signalLen t =? signalCap t then 0 else 1)
    /\ signalCap t' = signalCap t
    /\ (0 <= signalLen t <= signalCap t -> 0 <= signalLen t' <= signalCap t')
    /\ handleMessage incrementWorkers_plain decrementWorkers_plain appErr t
       = releaseWorker decrementWorkers_plain (increment t).
Proof.
  intros Hfree Hopen.
  unfold releaseWorker, Lock, decrementWorkers_plain. rewrite Hfree. simpl.
  rewrite Hopen.
  destruct (signalLen t =? signalCap t) eqn:Full; simpl;
    (eexists; split; [reflexivity|]); simpl; unfold signalsEmitted; simpl;
    (split; [destruct (activeWorkers t - 1 <? 0) eqn:N;
               [apply Z.ltb_lt in N | apply Z.ltb_ge in N]; lia|]);
    (split; [reflexivity|]); (split; [lia|]); (split; [reflexivity|]);
    (split; [|reflexivity]).
  - lia.
  - apply Z.eqb_neq in Full. lia.
Qed.

Lemma releaseWorker_plain_signal_accounting_witness :
  exists t',
    releaseWorker decrementWorkers_plain (increment (NewThreadPool 4)) = Completed t'
    /\ activeWorkers t' = 0
    /\ signalsEmitted (increment (NewThreadPool 4)) t' = 1
    /\ 0 <= signalLen t' <= signalCap t'.
Proof.
  destruct (releaseWorker_plain_signal_accounting (increment (NewThreadPool 4)) None)
    as (t' & R & A & _ & S & _ & B & _).
  - reflexivity.
  - reflexivity.
  - exists t'. split; [exact R|]. split; [exact A|]. split; [exact S|].
    apply B. cbn. lia.
Defined.

(** In that sibling version a pool of one worker shows the full channel:
    the first request leaves its signal in the channel, which is then at
    capacity, and the second request, admitted because the worker is free,
    leaves none. *)
Lemma releaseWorker_plain_full_channel :
  exists t1 t2,
    handleMessage incrementWorkers_plain decrementWorkers_plain None (NewThreadPool 1)
      = Completed t1
    /\ signalsEmitted (NewThreadPool 1) t1 = 1
    /\ freeWorkerExists t1 = true
    /\ handleMessage incrementWorkers_plain decrementWorkers_plain None t1 = Completed t2
    /\ signalsEmitted t1 t2 = 0.
Proof.
  eexists. eexists. split; [vm_compute; reflexivity|].
  repeat split; vm_compute; reflexivity.
Qed.

End PoolSignals.

(** ** Keys and scalars of the height index *)

Section IndexKeysAndScalars.
Import HeightIndexKeys HeightIndex Fixtures.

Lemma lor_shiftl_byte (a x : Z) :
  0 <= x < 256 -> Z.lor (Z.shiftl a 8) x = a * 256 + x.
Proof.
  intros Hx.
  assert (Hland : Z.land (Z.shiftl a 8) x = 0).
  { apply Z.bits_inj'. intros n Hn. rewrite Z.land_spec, Z.bits_0.
    destruct (Z.ltb_spec n 8) as [Hlt|Hge].
    - rewrite Z.shiftl_spec_low by lia. reflexivity.
    - rewrite (Z.bits_above_log2 x n); [apply andb_false_r | lia |].
      destruct (Z.eq_dec x 0) as [->|Hnz]; [simpl; lia|].
      assert (Z.log2 x < 8) by (apply Z.log2_lt_pow2; lia). lia. }
  rewrite <- Z.lxor_lor by exact Hland.
  rewrite <- Z.add_nocarry_lxor by exact Hland.
  rewrite Z.shiftl_mul_pow2 by lia. reflexivity.
Qed.

Lemma fold_lor_shiftl_bytes (bs : list Z) (acc : Z) :
  Forall (fun b => 0 <= b < 256) bs ->
  fold_left (fun a x => Z.lor (Z.shiftl a 8) x) bs acc
  = fold_left (fun a x => a * 256 + x) bs acc.
Proof.
  intros Hall. revert acc. induction Hall as [|b bs Hb Hall IH]; intros acc; simpl.
  - reflexivity.
  - rewrite lor_shiftl_byte by exact Hb. apply IH.
Qed.

Lemma Uint64_big_endian_value (bs : list Z) :
  length bs = 8%nat -> Forall (fun b => 0 <= b < 256) bs ->
  Uint64 bs = big_endian_value bs.
Proof.
  intros Hlen Hall. unfold Uint64, big_endian_value.
  rewrite take_ge by lia. apply fold_lor_shiftl_bytes. exact Hall.
Qed.

Lemma big_endian_uint64_bytes (h : Z) :
  Forall (fun b => 0 <= b < 256) (big_endian_uint64 h).
Proof.
  unfold big_endian_uint64. apply Forall_map. apply Forall_forall.
  intros i _. simpl. apply Z.mod_pos_bound. lia.
Qed.

(** Packing a [uint64] and reading it back gives the number. *)
Lemma Uint64_PackUInt64 (h : Z) :
  0 <= h < 2 ^ 64 -> Uint64 (Database.PackUInt64 h) = h.
Proof.
  intros Hh. unfold Database.PackUInt64. rewrite PutUint64_make.
  rewrite Uint64_big_endian_value.
  - apply big_endian_roundtrip. exact Hh.
  - reflexivity.
  - apply big_endian_uint64_bytes.
Qed.

Lemma PackUInt64_length (h : Z) : length (Database.PackUInt64 h) = LongLen.
Proof. unfold Database.PackUInt64. rewrite PutUint64_make. reflexivity. Qed.

(** X1. Two heights of the [uint64] range with the same entry key are the
    same height: entries of different heights never share a key. *)
Theorem GetEntryKey_injective (h1 h2 : Z) :
  0 <= h1 < 2 ^ 64 -> 0 <= h2 < 2 ^ 64 ->
  GetEntryKey h1 = GetEntryKey h2 -> h1 = h2.
Proof.
  intros H1 H2 E. rewrite !GetEntryKey_unfold in E.
  apply app_inv_head in E.
  rewrite <- (big_endian_roundtrip h1 H1), <- (big_endian_roundtrip h2 H2), E.
  reflexivity.
Qed.

Lemma GetEntryKey_injective_witness : GetEntryKey 258 <> GetEntryKey 2.
Proof.
  intros E. apply (GetEntryKey_injective 258 2) in E.
  - discriminate E.
  - lia.
  - lia.
Defined.

(** X2. The three key families are disjoint: no entry key is the fork
    key or the checkpoint key, and these two differ; so a write to one
    family never overwrites another. The height is read modulo [2^64], as
    the conversion to [uint64] does. *)
Theorem key_families_disjoint (h : Z) :
  GetEntryKey h <> GetForkKey
  /\ GetEntryKey h <> GetCheckpointKey
  /\ GetForkKey <> GetCheckpointKey
  /\ GetEntryKey h = GetEntryKey (h mod 2 ^ 64).
Proof.
  split; [apply GetEntryKey_not_fork|].
  split; [apply GetEntryKey_not_checkpoint|].
  split; [vm_compute; discriminate|].
  rewrite !GetEntryKey_unfold. f_equal.
  unfold big_endian_uint64. simpl.
  change (2 ^ 64) with 18446744073709551616.
  change (256 ^ (7 - Z.of_nat 0)) with 72057594037927936.
  change (256 ^ (7 - Z.of_nat 1)) with 281474976710656.
  change (256 ^ (7 - Z.of_nat 2)) with 1099511627776.
  change (256 ^ (7 - Z.of_nat 3)) with 4294967296.
  change (256 ^ (7 - Z.of_nat 4)) with 16777216.
  change (256 ^ (7 - Z.of_nat 5)) with 65536.
  change (256 ^ (7 - Z.of_nat 6)) with 256.
  change (256 ^ (7 - Z.of_nat 7)) with 1.
  repeat (f_equal; [Z.div_mod_to_equations; lia|]).
  f_equal. Z.div_mod_to_equations; lia.
Qed.

Lemma LRU_find_remove_eq (key : list Z) (l : list (list Z * ID)) :
  LRU.find key (LRU.remove key l) = None.
Proof.
  unfold LRU.remove. induction l as [|[k v] l IH]; [reflexivity|].
  rewrite filter_cons. simpl. destruct (decide (k <> key)) as [Hne|Heq].
  - simpl. rewrite decide_False by exact Hne. exact IH.
  - exact IH.
Qed.

Lemma LRU_find_remove_ne (key key' : list Z) (l : list (list Z * ID)) :
  key' <> key -> LRU.find key' (LRU.remove key l) = LRU.find key' l.
Proof.
  intros Hne. unfold LRU.remove. induction l as [|[k v] l IH]; [reflexivity|].
  rewrite filter_cons. simpl. destruct (decide (k <> key)) as [Hk|Hk].
  - simpl. destruct (decide (k = key')); [reflexivity | exact IH].
  - apply dec_stable in Hk. subst k.
    rewrite decide_False by (intros E; apply Hne; symmetry; exact E). exact IH.
Qed.

Lemma LRU_find_take (n : nat) (key : list Z) (v : ID) (l : list (list Z * ID)) :
  LRU.find key (take n l) = Some v -> LRU.find key l = Some v.
Proof.
  revert n. induction l as [|[k w] l IH]; intros n; destruct n as [|n]; simpl;
    try discriminate.
  destruct (decide (k = key)); [auto | apply IH].
Qed.

(** X3. The fork height survives a round trip: on an open store
    [SetForkHeight h] returns [nil], [GetForkHeight] then answers [h], the
    checkpoint and every entry are as before, and after [DeleteForkHeight]
    the fork height is not found. *)
Theorem fork_height_roundtrip (hi : index) (h : Z) :
  Database.closed (db hi) = false ->
  0 <= h < 2 ^ 64 ->
  exists hi' hi'',
    SetForkHeight hi h = (hi', None)
    /\ GetForkHeight hi' = Ok h
    /\ GetCheckpoint hi' = GetCheckpoint hi
    /\ (forall h', IndexCoherence.stored hi' h' = IndexCoherence.stored hi h')
    /\ DeleteForkHeight hi' = (hi'', None)
    /\ GetForkHeight hi'' = Err ErrNotFound.
Proof.
  intros Hopen Hh.
  unfold SetForkHeight, DeleteForkHeight, Database.PutUInt64, Database.Put,
    Database.Delete. rewrite Hopen. simpl.
  eexists. eexists. split; [reflexivity|].
  split.
  { unfold GetForkHeight, Database.GetUInt64, Database.Get. simpl.
    rewrite lookup_insert_eq, PackUInt64_length. simpl.
    rewrite Uint64_PackUInt64 by exact Hh. reflexivity. }
  split.
  { unfold GetCheckpoint, Database.Get. simpl. rewrite Hopen.
    rewrite lookup_insert_ne by (vm_compute; discriminate). reflexivity. }
  split.
  { intros h'. unfold IndexCoherence.stored, Database.Get. simpl. rewrite Hopen.
    rewrite lookup_insert_ne
      by (intros E; apply (GetEntryKey_not_fork h'); symmetry; exact E).
    reflexivity. }
  split; [reflexivity|].
  unfold GetForkHeight, Database.GetUInt64, Database.Get. simpl.
  rewrite lookup_delete_eq. reflexivity.
Qed.

Lemma fork_height_roundtrip_witness :
  exists hi',
    SetForkHeight (HeightIndex.New memDB) 1000000 = (hi', None)
    /\ GetForkHeight hi' = Ok 1000000.
Proof.
  destruct (fork_height_roundtrip (HeightIndex.New memDB) 1000000)
    as (hi' & hi'' & S & G & _).
  - reflexivity.
  - lia.
  - exists hi'. split; [exact S | exact G].
Defined.

(** X4. The checkpoint survives a round trip: on an open store
    [SetCheckpoint id] with a 32-byte identifier returns [nil],
    [GetCheckpoint] then answers [id] whatever was there before, the fork
    height and every entry are as before, and after [DeleteCheckpoint] the
    checkpoint is not found. *)
Theorem checkpoint_roundtrip (hi : index) (id : ID) :
  Database.closed (db hi) = false ->
  length id = IDLen ->
  exists hi' hi'',
    SetCheckpoint hi id = (hi', None)
    /\ GetCheckpoint hi' = Ok id
    /\ GetForkHeight hi' = GetForkHeight hi
    /\ (forall h, IndexCoherence.stored hi' h = IndexCoherence.stored hi h)
    /\ DeleteCheckpoint hi' = (hi'', None)
    /\ GetCheckpoint hi'' = Err ErrNotFound.
Proof.
  intros Hopen Hlen.
  unfold SetCheckpoint, DeleteCheckpoint, Database.Put, Database.Delete.
  rewrite Hopen. simpl.
  eexists. eexists. split; [reflexivity|].
  split.
  { unfold GetCheckpoint, Database.Get. simpl. rewrite lookup_insert_eq.
    unfold ToID. rewrite Hlen, Nat.eqb_refl. reflexivity. }
  split.
  { unfold GetForkHeight, Database.GetUInt64, Database.Get. simpl. rewrite Hopen.
    rewrite lookup_insert_ne by (vm_compute; discriminate). reflexivity. }
  split.
  { intros h. unfold IndexCoherence.stored, Database.Get. simpl. rewrite Hopen.
    rewrite lookup_insert_ne
      by (intros E; apply (GetEntryKey_not_checkpoint h); symmetry; exact E).
    reflexivity. }
  split; [reflexivity|].
  unfold GetCheckpoint, Database.Get. simpl.
  rewrite lookup_delete_eq. reflexivity.
Qed.

Lemma checkpoint_roundtrip_witness :
  exists hi',
    SetCheckpoint (forkedIndex 5 (Some (chainID 1))) (chainID 2) = (hi', None)
    /\ GetCheckpoint hi' = Ok (chainID 2)
    /\ GetForkHeight hi' = Ok 5.
Proof.
  destruct (checkpoint_roundtrip (forkedIndex 5 (Some (chainID 1))) (chainID 2))
    as (hi' & hi'' & S & G & F & _).
  - reflexivity.
  - reflexivity.
  - exists hi'. split; [exact S|]. split; [exact G|]. rewrite F.
    vm_compute. reflexivity.
Defined.

End IndexKeysAndScalars.

(** ** Entries of the height index *)

Section IndexEntries.
Import HeightIndexKeys HeightIndex IndexCoherence Indexer Fixtures.

Lemma LRU_Put_find_other (c : LRU.t) (key key' : list Z) (v v' : ID) :
  key' <> key ->
  LRU.find key' (LRU.entries (LRU.Put c key v)) = Some v' ->
  LRU.find key' (LRU.entries c) = Some v'.
Proof.
  intros Hne F. unfold LRU.Put in F. simpl in F.
  apply LRU_find_take in F. simpl in F.
  rewrite decide_False in F by (intros E; apply Hne; symmetry; exact E).
  rewrite LRU_find_remove_ne in F by exact Hne. exact F.
Qed.

Lemma LRU_Put_find_same (c : LRU.t) (key : list Z) (v v' : ID) :
  LRU.find key (LRU.entries (LRU.Put c key v)) = Some v' -> v' = v.
Proof.
  intros F. unfold LRU.Put in F. simpl in F.
  apply LRU_find_take in F. simpl in F.
  rewrite decide_True in F by reflexivity. inversion F; reflexivity.
Qed.

Lemma LRU_Get_find (c c' : LRU.t) (key key' : list Z) (r : option ID) (v' : ID) :
  LRU.Get c key = (r, c') ->
  LRU.find key' (LRU.entries c') = Some v' ->
  LRU.find key' (LRU.entries c) = Some v'.
Proof.
  unfold LRU.Get. intros G F.
  destruct (LRU.find key (LRU.entries c)) as [v|] eqn:Fk.
  - inversion G; subst; clear G. simpl in F.
    destruct (decide (key = key')) as [->|Hne].
    + inversion F; subst. exact Fk.
    + rewrite LRU_find_remove_ne in F by (intros E; apply Hne; symmetry; exact E).
      exact F.
  - inversion G; subst. exact F.
Qed.

(** X5. An entry survives a round trip: on an open store
    [SetBlockIDAtHeight h id] with a 32-byte identifier returns [nil] and
    overwrites silently; the next [GetBlockIDAtHeight h] answers [id], and
    so does a read after the cache has been cleared, since the store holds
    it. *)
Theorem entry_roundtrip (hi : index) (h : Z) (id : ID) :
  Database.closed (db hi) = false ->
  length id = IDLen ->
  exists hi',
    SetBlockIDAtHeight hi h id = (hi', None)
    /\ (GetBlockIDAtHeight hi' h).1 = Ok id
    /\ (GetBlockIDAtHeight (ClearCache hi') h).1 = Ok id
    /\ stored hi' h = Ok id
    /\ GetCheckpoint hi' = GetCheckpoint hi
    /\ GetForkHeight hi' = GetForkHeight hi.
Proof.
  intros Hopen Hlen.
  assert (HT : ToID id = Ok id) by (unfold ToID; rewrite Hlen, Nat.eqb_refl; reflexivity).
  pose proof (GetEntryKey_not_checkpoint h) as Hc.
  pose proof (GetEntryKey_not_fork h) as Hf.
  unfold SetBlockIDAtHeight, GetBlockIDAtHeight, ClearCache, stored, GetCheckpoint,
    GetForkHeight, Database.GetUInt64, Database.Put, Database.Get, LRU.Get.
  revert Hc Hf. generalize (GetEntryKey h). intros key Hc Hf.
  rewrite Hopen. eexists. split; [reflexivity|].
  cbn [blkHeightsCache db Database.closed Database.data LRU.Flush LRU.entries LRU.find].
  rewrite !lookup_insert_eq, HT.
  rewrite !lookup_insert_ne by assumption.
  split; [|split; [reflexivity|split; [reflexivity|split; reflexivity]]].
  destruct (LRU.find key (LRU.entries (LRU.Put (blkHeightsCache hi) key id))) as [v|] eqn:F.
  - apply LRU_Put_find_same in F. subst v. reflexivity.
  - reflexivity.
Qed.

Lemma entry_roundtrip_witness :
  exists hi',
    SetBlockIDAtHeight (HeightIndex.New memDB) 7 (chainID 7) = (hi', None)
    /\ (GetBlockIDAtHeight hi' 7).1 = Ok (chainID 7).
Proof.
  destruct (entry_roundtrip (HeightIndex.New memDB) 7 (chainID 7))
    as (hi' & S & G & _).
  - reflexivity.
  - reflexivity.
  - exists hi'. split; [exact S | exact G].
Defined.

(** X6. Deleting an entry: on an open store [DeleteBlockIDAtHeight h]
    returns [nil] whether or not the entry exists, and afterwards
    [GetBlockIDAtHeight h] answers not-found: neither the cache nor the
    store still holds the entry. The checkpoint and the fork height are as
    before. *)
Theorem entry_delete (hi : index) (h : Z) :
  Database.closed (db hi) = false ->
  exists hi',
    DeleteBlockIDAtHeight hi h = (hi', None)
    /\ (GetBlockIDAtHeight hi' h).1 = Err ErrNotFound
    /\ stored hi' h = Err ErrNotFound
    /\ GetCheckpoint hi' = GetCheckpoint hi
    /\ GetForkHeight hi' = GetForkHeight hi.
Proof.
  intros Hopen.
  pose proof (GetEntryKey_not_checkpoint h) as Hc.
  pose proof (GetEntryKey_not_fork h) as Hf.
  unfold DeleteBlockIDAtHeight, GetBlockIDAtHeight, stored, GetCheckpoint,
    GetForkHeight, Database.GetUInt64, Database.Delete, Database.Get, LRU.Get,
    LRU.Evict.
  revert Hc Hf. generalize (GetEntryKey h). intros key Hc Hf.
  rewrite Hopen. eexists. split; [reflexivity|].
  cbn [blkHeightsCache db Database.closed Database.data LRU.entries].
  rewrite LRU_find_remove_eq, !lookup_delete_eq.
  rewrite !lookup_delete_ne by assumption.
  repeat split; reflexivity.
Qed.

Lemma entry_delete_witness :
  exists hi',
    DeleteBlockIDAtHeight (indexState (indexedIndexer 3)) 3 = (hi', None)
    /\ (GetBlockIDAtHeight (indexState (indexedIndexer 3)) 3).1 = Ok (chainID 3)
    /\ (GetBlockIDAtHeight hi' 3).1 = Err ErrNotFound.
Proof.
  destruct (entry_delete (indexState (indexedIndexer 3)) 3) as (hi' & D & G & _).
  - reflexivity.
  - exists hi'. split; [exact D|]. split; [vm_compute; reflexivity | exact G].
Defined.

(** X7. Cache and store stay together. If every cached identifier is
    the value the store holds for its height, this is still so after
    [SetBlockIDAtHeight] on an open store, after [DeleteBlockIDAtHeight],
    after [GetBlockIDAtHeight], after the fork-height and checkpoint
    writes and after [ClearCache]; and then an identifier answered by
    [GetBlockIDAtHeight] is the one stored for that height. A new index
    starts in that condition. *)
Theorem index_cache_coherent (hi : index) :
  coherent hi ->
  (forall h id hi',
      Database.closed (db hi) = false ->
      SetBlockIDAtHeight hi h id = (hi', None) -> coherent hi')
  /\ (forall h hi' e, DeleteBlockIDAtHeight hi h = (hi', e) -> coherent hi')
  /\ (forall h r hi',
        GetBlockIDAtHeight hi h = (r, hi') ->
        coherent hi'
        /\ forall v, r = Ok v -> Database.data (db hi) !! GetEntryKey h = Some v)
  /\ (forall h hi' e, SetForkHeight hi h = (hi', e) -> coherent hi')
  /\ (forall id hi' e, SetCheckpoint hi id = (hi', e) -> coherent hi')
  /\ (forall hi' e, DeleteCheckpoint hi = (hi', e) -> coherent hi')
  /\ coherent (ClearCache hi)
  /\ (forall d, coherent (HeightIndex.New d)).
Proof.
  intros Hco.
  split; [|split; [|split; [|split; [|split; [|split; [|split]]]]]].
  - intros h id hi' Hopen E. unfold SetBlockIDAtHeight, Database.Put in E.
    rewrite Hopen in E. inversion E; subst; clear E.
    intros h' v' F. cbn [blkHeightsCache db Database.data] in *.
    destruct (decide (GetEntryKey h' = GetEntryKey h)) as [Ek|Hne].
    + rewrite Ek in *. apply LRU_Put_find_same in F. subst v'.
      apply lookup_insert_eq.
    + apply LRU_Put_find_other in F; [|exact Hne].
      rewrite lookup_insert_ne by (intros E; apply Hne; symmetry; exact E).
      apply Hco. exact F.
  - intros h hi' e E. unfold DeleteBlockIDAtHeight, Database.Delete in E.
    intros h' v' F.
    destruct (decide (GetEntryKey h' = GetEntryKey h)) as [Ek|Hne].
    + destruct (Database.closed (db hi)); inversion E; subst; clear E;
        cbn [blkHeightsCache db LRU.Evict LRU.entries] in F;
        rewrite Ek, LRU_find_remove_eq in F; discriminate.
    + destruct (Database.closed (db hi)); inversion E; subst; clear E;
        cbn [blkHeightsCache db LRU.Evict LRU.entries Database.data] in *;
        rewrite LRU_find_remove_ne in F by exact Hne;
        rewrite ?lookup_delete_ne by (intros E; apply Hne; symmetry; exact E);
        apply Hco; exact F.
  - intros h r hi' E. unfold GetBlockIDAtHeight in E.
    destruct (LRU.Get (blkHeightsCache hi) (GetEntryKey h)) as [[res|] c] eqn:G.
    + inversion E; subst; clear E. split.
      * intros h' v' F. cbn [blkHeightsCache db] in *.
        apply Hco. eapply LRU_Get_find; eassumption.
      * intros v Ev. inversion Ev; subst. apply Hco.
        unfold LRU.Get in G.
        destruct (LRU.find (GetEntryKey h) (LRU.entries (blkHeightsCache hi)));
          inversion G; reflexivity.
    + assert (Hc : c = blkHeightsCache hi).
      { unfold LRU.Get in G.
        destruct (LRU.find (GetEntryKey h) (LRU.entries (blkHeightsCache hi)));
          inversion G; reflexivity. }
      subst c. unfold Database.Get in E.
      destruct (Database.closed (db hi)) eqn:C.
      { inversion E; subst. split; [exact Hco | discriminate]. }
      destruct (Database.data (db hi) !! GetEntryKey h) as [bytes|] eqn:D.
      * unfold ToID in E. destruct (length bytes =? IDLen)%nat.
        -- inversion E; subst; clear E. split.
           ++ intros h' v' F. cbn [blkHeightsCache db] in *.
              destruct (decide (GetEntryKey h' = GetEntryKey h)) as [Ek|Hne].
              ** rewrite Ek in *. apply LRU_Put_find_same in F. subst. exact D.
              ** apply LRU_Put_find_other in F; [|exact Hne]. apply Hco. exact F.
           ++ intros v Ev. inversion Ev; subst. reflexivity.
        -- inversion E; subst. split; [exact Hco | discriminate].
      * inversion E; subst. split; [exact Hco | discriminate].
  - intros h hi' e E. unfold SetForkHeight, Database.PutUInt64, Database.Put in E.
    intros h' v' F.
    destruct (Database.closed (db hi)); inversion E; subst; clear E;
      cbn [blkHeightsCache db Database.data] in *;
      rewrite ?lookup_insert_ne
        by (intros E; apply (GetEntryKey_not_fork h'); symmetry; exact E);
      apply Hco; exact F.
  - intros id hi' e E. unfold SetCheckpoint, Database.Put in E.
    intros h' v' F.
    destruct (Database.closed (db hi)); inversion E; subst; clear E;
      cbn [blkHeightsCache db Database.data] in *;
      rewrite ?lookup_insert_ne
        by (intros E; apply (GetEntryKey_not_checkpoint h'); symmetry; exact E);
      apply Hco; exact F.
  - intros hi' e E. unfold DeleteCheckpoint, Database.Delete in E.
    intros h' v' F.
    destruct (Database.closed (db hi)); inversion E; subst; clear E;
      cbn [blkHeightsCache db Database.data] in *;
      rewrite ?lookup_delete_ne
        by (intros E; apply (GetEntryKey_not_checkpoint h'); symmetry; exact E);
      apply Hco; exact F.
  - intros h' v' F. discriminate F.
  - intros d h' v' F. discriminate F.
Qed.

Lemma index_cache_coherent_witness :
  coherent (SetBlockIDAtHeight (HeightIndex.New memDB) 7 (chainID 7)).1.
Proof.
  assert (Hnew : coherent (HeightIndex.New memDB)) by (intros h v F; discriminate F).
  apply (proj1 (index_cache_coherent (HeightIndex.New memDB) Hnew) 7 (chainID 7)).
  - reflexivity.
  - vm_compute. reflexivity.
Defined.

End IndexEntries.

(** ** A whole walk *)

Section WholeWalk.
Import HeightIndexKeys HeightIndex Logging Indexer Fixtures RepairChain.

Lemma GetBlockIDAtHeight_missing (s : index) (h : Z) :
  LRU.find (GetEntryKey h) (LRU.entries (blkHeightsCache s)) = None ->
  Database.closed (db s) = false ->
  Database.data (db s) !! GetEntryKey h = None ->
  GetBlockIDAtHeight s h = (Err ErrNotFound, HeightIndex.mk (blkHeightsCache s) (db s)).
Proof.
  intros F C D. unfold GetBlockIDAtHeight, LRU.Get, Database.Get.
  rewrite F, C, D. reflexivity.
Qed.

(** One turn over a block nothing is known of: the entry is staged (and
    perhaps committed with a new checkpoint), the cache is untouched, and
    the walk moves to the parent. *)
Lemma doRepair_iter_unindexed (hi : heightIndexer) (cur : ID) (b : Block) :
  GetBlk (server hi) cur = Ok b ->
  ((exists cb, GetBlk (server hi) (blk_Parent b) = Ok cb)
   \/ GetBlk (server hi) (blk_Parent b) = Err ErrNotFound) ->
  Database.closed (db (indexState hi)) = false ->
  unindexed hi (blk_Height b) ->
  exists hi1,
    doRepair_iter hi cur = Running hi1 (blk_Parent b)
    /\ server hi1 = server hi
    /\ Database.closed (db (indexState hi1)) = false
    /\ blkHeightsCache (indexState hi1) = blkHeightsCache (indexState hi)
    /\ jobDone hi1 = jobDone hi
    /\ pending hi1 !! GetEntryKey (blk_Height b) = Some cur
    /\ (forall k, k <> GetEntryKey (blk_Height b) -> k <> GetCheckpointKey ->
                  pending hi1 !! k = pending hi !! k)
    /\ (Database.data (db (indexState hi1)) = Database.data (db (indexState hi))
        \/ Database.data (db (indexState hi1)) = pending hi1).
Proof.
  intros Hblk Hpar Hopen (Hf & Hd & Hp).
  pose proof (GetEntryKey_not_checkpoint (blk_Height b)) as Hck.
  unfold doRepair_iter. rewrite Hblk.
  unfold getBlockIDAtHeight.
  rewrite (GetBlockIDAtHeight_missing _ _ Hf Hopen Hd).
  unfold batchPut, Batch.Put, doCheckpoint, batchPut, Batch.Put, batchWrite,
    Batch.Write, batchReset, logf, pending in *.
  revert Hf Hd Hp Hck.
  generalize (GetEntryKey (blk_Height b)). generalize GetCheckpointKey.
  intros ck key Hf Hd Hp Hck.
  simpl. rewrite Hopen. simpl.
  destruct (_ >? _).
  - destruct Hpar as [[cb Hcb]|Hnf].
    + rewrite Hcb. rewrite Hopen. simpl. rewrite Hopen.
      eexists. split; [reflexivity|]. simpl.
      rewrite !fold_left_app. simpl.
      split; [reflexivity|]. split; [reflexivity|]. split; [reflexivity|].
      split; [reflexivity|]. split.
      { rewrite lookup_insert_ne by (intros E; apply Hck; symmetry; exact E).
        apply lookup_insert_eq. }
      split; [|right; reflexivity].
      intros k Hk1 Hk2.
      rewrite lookup_insert_ne by (intros E; apply Hk2; symmetry; exact E).
      rewrite lookup_insert_ne by (intros E; apply Hk1; symmetry; exact E).
      reflexivity.
    + rewrite Hnf. simpl. rewrite Hopen.
      eexists. split; [reflexivity|]. simpl.
      rewrite !fold_left_app. simpl.
      split; [reflexivity|]. split; [reflexivity|]. split; [reflexivity|].
      split; [reflexivity|]. split; [apply lookup_insert_eq|].
      split; [|right; reflexivity].
      intros k Hk1 Hk2.
      rewrite lookup_insert_ne by (intros E; apply Hk1; symmetry; exact E).
      reflexivity.
  - eexists. split; [reflexivity|]. simpl.
    rewrite !fold_left_app. simpl.
    split; [reflexivity|]. split; [exact Hopen|]. split; [reflexivity|].
    split; [reflexivity|]. split; [apply lookup_insert_eq|].
    split; [|left; reflexivity].
    intros k Hk1 Hk2.
    rewrite lookup_insert_ne by (intros E; apply Hk1; symmetry; exact E).
    reflexivity.
Qed.

Lemma walk_linked (blocks : list Block) :
  forall (hi : heightIndexer) (start : ID),
  linked (server hi) start blocks ->
  Database.closed (db (indexState hi)) = false ->
  NoDup (map (fun b => GetEntryKey (blk_Height b)) blocks) ->
  (forall b, In b blocks -> unindexed hi (blk_Height b)) ->
  exists hiD,
    doRepair (S (length blocks)) hi start = Returned None hiD
    /\ jobDone hiD = true
    /\ Database.closed (db (indexState hiD)) = false
    /\ blkHeightsCache (indexState hiD) = blkHeightsCache (indexState hi)
    /\ (forall h id, In (h, id) (entriesOf start blocks) ->
                     pending hiD !! GetEntryKey h = Some id)
    /\ pending hiD !! GetCheckpointKey = None
    /\ (forall k, k <> GetCheckpointKey ->
                  ~ In k (map (fun b => GetEntryKey (blk_Height b)) blocks) ->
                  pending hiD !! k = pending hi !! k).
Proof.
  induction blocks as [|b rest IH]; intros hi start Hlink Hopen Hnd Hun.
  - cbn [linked] in Hlink. cbn [length doRepair].
    rewrite (doRepair_iter_missing hi start Hlink Hopen).
    eexists. split; [reflexivity|].
    unfold pending, logf. cbn [with_log with_jobDone with_batch jobDone indexState
      batch Batch.writes].
    rewrite fold_left_app. cbn [fold_left Batch.apply].
    split; [reflexivity|]. split; [exact Hopen|]. split; [reflexivity|].
    split; [intros h id []|]. split; [apply lookup_delete_eq|].
    intros k Hk _. apply lookup_delete_ne. intros E. apply Hk. symmetry. exact E.
  - cbn [linked] in Hlink. destruct Hlink as [Hblk Hrest].
    cbn [map] in Hnd. apply NoDup_cons in Hnd. destruct Hnd as [Hnotin Hnd].
    assert (Hpar : (exists cb, GetBlk (server hi) (blk_Parent b) = Ok cb)
                   \/ GetBlk (server hi) (blk_Parent b) = Err ErrNotFound).
    { destruct rest as [|b2 rest']; cbn [linked] in Hrest.
      - right. exact Hrest.
      - left. exists b2. apply Hrest. }
    destruct (doRepair_iter_unindexed hi start b Hblk Hpar Hopen (Hun b (or_introl eq_refl)))
      as (hi1 & Hturn & Hsrv & Hopen1 & Hcache1 & Hdone1 & Hkey & Hframe & Hdata).
    assert (Hne : forall b', In b' rest ->
                    GetEntryKey (blk_Height b') <> GetEntryKey (blk_Height b)).
    { intros b' Hin E. apply Hnotin. apply list_elem_of_In. rewrite <- E.
      apply (in_map (fun b => GetEntryKey (blk_Height b))). exact Hin. }
    destruct (IH hi1 (blk_Parent b)) as (hiD & Hrun & Hdone & HopenD & HcacheD & Hent & Hck & HframeD).
    + rewrite Hsrv. exact Hrest.
    + exact Hopen1.
    + exact Hnd.
    + intros b' Hin. destruct (Hun b' (or_intror Hin)) as (Hf & Hd & Hp).
      assert (Hp1 : pending hi1 !! GetEntryKey (blk_Height b') = None).
      { rewrite Hframe; [exact Hp | apply Hne; exact Hin
                         | apply GetEntryKey_not_checkpoint]. }
      split; [rewrite Hcache1; exact Hf|]. split; [|exact Hp1].
      destruct Hdata as [-> | ->]; [exact Hd | exact Hp1].
    + exists hiD. split.
      { cbn [length]. change (doRepair (S (S (length rest))) hi start)
          with (match doRepair_iter hi start with
                | Running hi' next => doRepair (S (length rest)) hi' next
                | o => o
                end).
        rewrite Hturn. exact Hrun. }
      split; [exact Hdone|]. split; [exact HopenD|].
      split; [rewrite HcacheD; exact Hcache1|].
      split.
      { intros h id Hin. cbn [entriesOf] in Hin. destruct Hin as [E|Hin].
        - inversion E; subst. rewrite HframeD; [exact Hkey
            | apply GetEntryKey_not_checkpoint |].
          intros Hin. apply Hnotin. apply list_elem_of_In. exact Hin.
        - apply Hent. exact Hin. }
      split; [exact Hck|].
      intros k Hk Hnin. cbn [map In] in Hnin.
      rewrite HframeD; [|exact Hk | intros Hin; apply Hnin; right; exact Hin].
      apply Hframe; [|exact Hk]. intros E. apply Hnin. left. symmetry. exact E.
Qed.

(** X8. Repair completeness. Over any chain of blocks linked by their
    parents down to a block that is not found, whose heights have distinct
    entry keys and are neither cached, stored nor staged, on an open
    store and with any commit size cap: [doRepair] returns [nil] after one
    turn per block and one more; once its caller has written the batch the
    done flag is set, no checkpoint is left, and every height of the chain
    is stored with the identifier its block was fetched by (and is
    answered by [GetBlockIDAtHeight] when that identifier has 32 bytes). *)
Theorem doRepair_indexes_chain
    (hi : heightIndexer) (start : ID) (blocks : list Block) :
  linked (server hi) start blocks ->
  Database.closed (db (indexState hi)) = false ->
  NoDup (map (fun b => GetEntryKey (blk_Height b)) blocks) ->
  (forall b, In b blocks -> unindexed hi (blk_Height b)) ->
  exists hiD hiF,
    doRepair (S (length blocks)) hi start = Returned None hiD
    /\ batchWrite hiD = (hiF, None)
    /\ IsRepaired hiF = true
    /\ GetCheckpoint (indexState hiF) = Err ErrNotFound
    /\ forall h id,
         In (h, id) (entriesOf start blocks) ->
         Database.Get (db (indexState hiF)) (GetEntryKey h) = Ok id
         /\ (length id = IDLen -> (GetBlockIDAtHeight (indexState hiF) h).1 = Ok id).
Proof.
  intros Hlink Hopen Hnd Hun.
  destruct (walk_linked blocks hi start Hlink Hopen Hnd Hun)
    as (hiD & Hrun & Hdone & HopenD & HcacheD & Hent & Hck & _).
  unfold pending in Hent, Hck.
  exists hiD. eexists. split; [exact Hrun|].
  unfold batchWrite, Batch.Write. rewrite HopenD.
  split; [reflexivity|].
  split; [exact Hdone|].
  split.
  { unfold GetCheckpoint, Database.Get. cbn [with_indexState indexState db
      Database.closed Database.data]. rewrite Hck. reflexivity. }
  intros h id Hin. specialize (Hent h id Hin).
  assert (Hnone : LRU.find (GetEntryKey h)
                    (LRU.entries (blkHeightsCache (indexState hiD))) = None).
  { rewrite HcacheD.
    assert (Hb : exists b, In b blocks /\ blk_Height b = h).
    { clear -Hin. revert start Hin. induction blocks as [|b rest IH]; intros start Hin.
      - destruct Hin.
      - cbn [entriesOf] in Hin. destruct Hin as [E|Hin].
        + inversion E; subst. exists b. split; [left; reflexivity | reflexivity].
        + destruct (IH _ Hin) as (b' & Hb' & Hh). exists b'. split; [right; exact Hb' | exact Hh]. }
    destruct Hb as (b & Hb & <-). apply (Hun b Hb). }
  unfold GetBlockIDAtHeight, LRU.Get, Database.Get.
  revert Hent Hnone. generalize (GetEntryKey h). intros key Hent Hnone.
  simpl. unfold ID in Hent. rewrite Hent, Hnone. split; [reflexivity|].
  intros Hlen. unfold ToID. rewrite Hlen, Nat.eqb_refl. reflexivity.
Qed.

Lemma doRepair_indexes_chain_witness :
  exists hiD hiF,
    doRepair 5 (afterProbe (freshIndexer 3 40)) (chainID 3) = Returned None hiD
    /\ batchWrite hiD = (hiF, None)
    /\ (GetBlockIDAtHeight (indexState hiF) 2).1 = Ok (chainID 2).
Proof.
  destruct (doRepair_indexes_chain (afterProbe (freshIndexer 3 40)) (chainID 3) (chainList 3))
    as (hiD & hiF & R & W & _ & _ & E).
  - vm_compute. repeat split; reflexivity.
  - reflexivity.
  - vm_compute. repeat constructor; intros H; repeat (apply elem_of_cons in H; destruct H as [H|H]; [discriminate H|]); inversion H.
  - intros b Hb. vm_compute in Hb.
    repeat (destruct Hb as [<-|Hb]; [vm_compute; repeat split; reflexivity|]).
    destruct Hb.
  - exists hiD, hiF. split; [exact R|]. split; [exact W|].
    apply (E 2 (chainID 2)).
    + vm_compute. right. left. reflexivity.
    + reflexivity.
Defined.

End WholeWalk.

(** ** The repairer as a whole *)

Section RepairerRuns.
Import HeightIndexKeys HeightIndex Logging Indexer Fixtures RepairChain.

(** X9. Repair idempotence. On an index with no checkpoint whose entry
    for the last accepted height is answered, and with nothing staged,
    [RepairHeightIndex] returns [nil] without walking (whatever the
    number of turns allowed, even none): the done flag is set, the store
    holds what it held, nothing is staged and no checkpoint appears. The
    index is left in the same condition, so a further run does the same. *)
Theorem RepairHeightIndex_complete_index_noop
    (fuel : nat) (hi : heightIndexer) (blk : Block) (id : ID) (s : index) :
  GetCheckpoint (indexState hi) = Err ErrNotFound ->
  GetBlk (server hi) (LastAcceptedBlkID (server hi)) = Ok blk ->
  GetBlockIDAtHeight (indexState hi) (blk_Height blk) = (Ok id, s) ->
  Batch.writes (batch hi) = [] ->
  exists hi',
    RepairHeightIndex fuel hi = Returned None hi'
    /\ IsRepaired hi' = true
    /\ Database.data (db (indexState hi')) = Database.data (db (indexState hi))
    /\ Batch.writes (batch hi') = []
    /\ server hi' = server hi
    /\ GetCheckpoint (indexState hi') = Err ErrNotFound
    /\ (GetBlockIDAtHeight (indexState hi') (blk_Height blk)).1 = Ok id.
Proof.
  intros Hcp Hblk Hget Hbatch.
  pose proof (GetCheckpoint_NotFound_open _ Hcp) as Hopen.
  pose proof (GetBlockIDAtHeight_db _ _ _ _ Hget) as Hdb.
  destruct (GetBlockIDAtHeight_stable _ _ _ _ Hget) as [s2 Hget2].
  unfold RepairHeightIndex, shouldRepair. rewrite Hcp.
  unfold logf. cbn [with_log server]. rewrite Hblk.
  unfold getBlockIDAtHeight. cbn [with_log indexState]. rewrite Hget.
  unfold batchWrite, Batch.Write.
  cbn [with_log with_jobDone with_indexState indexState batch db].
  rewrite Hdb, Hopen, Hbatch.
  eexists. split; [reflexivity|].
  cbn [with_log with_jobDone with_indexState indexState batch db jobDone server
       fold_left Database.data IsRepaired].
  split; [reflexivity|]. split; [reflexivity|]. split; [exact Hbatch|].
  split; [reflexivity|].
  assert (E : HeightIndex.mk (blkHeightsCache s)
                (Database.mk (Database.data (db (indexState hi))) false) = s).
  { destruct s as [c d]. simpl in *. rewrite Hdb.
    destruct (db (indexState hi)) as [m cl]. simpl in *. rewrite Hopen. reflexivity. }
  rewrite E. split.
  - unfold GetCheckpoint in *. rewrite Hdb. exact Hcp.
  - rewrite Hget2. reflexivity.
Qed.

Lemma RepairHeightIndex_complete_index_noop_witness :
  exists hi',
    RepairHeightIndex 0 (indexedIndexer 3) = Returned None hi'
    /\ IsRepaired hi' = true
    /\ Database.data (db (indexState hi'))
       = Database.data (db (indexState (indexedIndexer 3))).
Proof.
  destruct (RepairHeightIndex_complete_index_noop 0 (indexedIndexer 3)
              (chainBlock 3) (chainID 3)
              (GetBlockIDAtHeight (indexState (indexedIndexer 3)) 3).2)
    as (hi' & R & D & S & _).
  - vm_compute. reflexivity.
  - vm_compute. reflexivity.
  - vm_compute. reflexivity.
  - reflexivity.
  - exists hi'. split; [exact R|]. split; [exact D | exact S].
Defined.

(** What one turn of the loop leaves of the done flag, the size cap and
    the size of the batch. *)
Lemma doRepair_iter_frame (hi : heightIndexer) (cur : ID) :
  match doRepair_iter hi cur with
  | Returned None hi' => jobDone hi' = true
  | Returned (Some _) hi' => jobDone hi' = jobDone hi
  | Running hi' _ =>
      jobDone hi' = jobDone hi
      /\ commitMaxSize hi' = commitMaxSize hi
      /\ (0 <= commitMaxSize hi ->
          Batch.size (batch hi) <= commitMaxSize hi ->
          Batch.size (batch hi') <= commitMaxSize hi')
  | Panicked => True
  end.
Proof.
  unfold doRepair_iter.
  destruct (GetBlk (server hi) cur) as [blk|e].
  - unfold getBlockIDAtHeight.
    destruct (GetBlockIDAtHeight (indexState hi) (blk_Height blk)) as [[v|e] s].
    + unfold AssertTrue. simpl. destruct (assertions (log hi)); simpl; auto.
    + destruct e; simpl; auto.
      unfold batchPut, Batch.Put. simpl.
      destruct (Database.closed (db s)); simpl; auto.
      destruct (_ >? _) eqn:G.
      * unfold doCheckpoint. simpl.
        destruct (GetBlk (server hi) (blk_Parent blk)) as [cb|e]; simpl.
        -- unfold batchPut, Batch.Put, batchWrite, Batch.Write. simpl.
           repeat match goal with
                  | |- context [Database.closed (db s)] =>
                      destruct (Database.closed (db s)); simpl; auto
                  end.
        -- unfold batchWrite, Batch.Write.
           destruct e; simpl; auto.
           repeat match goal with
                  | |- context [Database.closed (db s)] =>
                      destruct (Database.closed (db s)); simpl; auto
                  end.
      * simpl. split; [reflexivity|]. split; [reflexivity|].
        intros _ _. rewrite Z.gtb_ltb in G. apply Z.ltb_ge in G. lia.
  - destruct e; simpl; auto.
    unfold batchDelete, Batch.Delete.
    destruct (Database.closed (db (indexState hi))); simpl; auto.
Qed.

(** X10. The done flag is flipped by the walk only when it has passed
    genesis: while [doRepair] is still walking, and when it returns an
    error, [IsRepaired] is as it was before the call; when it returns
    [nil] it is true. And whenever [RepairHeightIndex] returns [nil],
    [IsRepaired] is true. *)
Theorem done_flag_only_on_success (fuel : nat) (hi : heightIndexer) (start : ID) :
  (forall hi' cur, doRepair fuel hi start = Running hi' cur ->
                   IsRepaired hi' = IsRepaired hi)
  /\ (forall hi' e, doRepair fuel hi start = Returned (Some e) hi' ->
                    IsRepaired hi' = IsRepaired hi)
  /\ (forall hi', doRepair fuel hi start = Returned None hi' -> IsRepaired hi' = true)
  /\ (forall hi', RepairHeightIndex fuel hi = Returned None hi' -> IsRepaired hi' = true).
Proof.
  assert (Hwalk : forall fuel hi start,
    match doRepair fuel hi start with
    | Returned None hi' => IsRepaired hi' = true
    | Returned (Some _) hi' => IsRepaired hi' = IsRepaired hi
    | Running hi' _ => IsRepaired hi' = IsRepaired hi
    | Panicked => True
    end).
  { clear. unfold IsRepaired.
    induction fuel as [|fuel IH]; intros hi start; simpl; [reflexivity|].
    pose proof (doRepair_iter_frame hi start) as F.
    destruct (doRepair_iter hi start) as [[e|] h1| |h1 next]; auto.
    destruct F as (J & _). specialize (IH h1 next).
    destruct (doRepair fuel h1 next) as [[e|] h2| |h2 c]; auto;
      rewrite IH; exact J. }
  split; [intros hi' c E; specialize (Hwalk fuel hi start); rewrite E in Hwalk; exact Hwalk|].
  split; [intros hi' e E; specialize (Hwalk fuel hi start); rewrite E in Hwalk; exact Hwalk|].
  split; [intros hi' E; specialize (Hwalk fuel hi start); rewrite E in Hwalk; exact Hwalk|].
  intros hi' E. unfold RepairHeightIndex in E.
  destruct (shouldRepair hi) as [[[need st] [e|]] h0] eqn:P; [discriminate|].
  destruct (batchWrite h0) as [h1 [e|]] eqn:W; [discriminate|].
  assert (Hj : jobDone h1 = jobDone h0).
  { unfold batchWrite in W. destruct (Batch.Write _ _). inversion W; reflexivity. }
  destruct need; simpl in E.
  - specialize (Hwalk fuel h1 st).
    destruct (doRepair fuel h1 st) as [[e|] h2| |h2 c]; try discriminate.
    destruct (batchWrite h2) as [h3 [e|]] eqn:W2; [discriminate|].
    inversion E; subst. unfold batchWrite in W2. destruct (Batch.Write _ _).
    inversion W2; subst. exact Hwalk.
  - inversion E; subst. unfold IsRepaired. rewrite Hj.
    unfold shouldRepair in P.
    destruct (GetCheckpoint (indexState hi)) as [cp|[]]; try discriminate.
    simpl in P.
    destruct (GetBlk (server hi) (LastAcceptedBlkID (server hi))) as [blk|e];
      [|discriminate].
    unfold getBlockIDAtHeight in P. simpl in P.
    destruct (GetBlockIDAtHeight (indexState hi) (blk_Height blk)) as [[v|[]] s];
      try discriminate.
    + inversion P; subst. reflexivity.
    + unfold batchPut in P. destruct (Batch.Put _ _ _ _) as [b [e|]]; discriminate.
Qed.

Lemma done_flag_only_on_success_witness :
  exists hi',
    RepairHeightIndex 5 (freshIndexer 3 0) = Returned None hi' /\ IsRepaired hi' = true.
Proof.
  destruct (RepairHeightIndex 5 (freshIndexer 3 0)) as [[e|] h| |h c] eqn:E;
    try (vm_compute in E; discriminate E).
  exists h. split; [reflexivity|].
  destruct (done_flag_only_on_success 5 (freshIndexer 3 0) (chainID 3)) as (_ & _ & _ & H).
  exact (H h E).
Defined.



(** X12. A commit inside the loop leaves a point to resume from. When
    staging the entry of a block takes the batch over the size cap and
    the block's parent exists, the turn writes everything staged together
    with [checkpoint = ID of the parent], empties the batch and moves to
    the parent: the store then holds the entry, and a repairer started
    anew over that store is told by its probe to resume at the parent. *)
Theorem doRepair_commit_turn
    (hi : heightIndexer) (cur : ID) (b cb : Block) :
  GetBlk (server hi) cur = Ok b ->
  GetBlk (server hi) (blk_Parent b) = Ok cb ->
  Database.closed (db (indexState hi)) = false ->
  LRU.find (GetEntryKey (blk_Height b))
           (LRU.entries (blkHeightsCache (indexState hi))) = None ->
  Database.data (db (indexState hi)) !! GetEntryKey (blk_Height b) = None ->
  commitMaxSize hi
    < Batch.size (batch hi) + Z.of_nat (length (GetEntryKey (blk_Height b)))
      + Z.of_nat (length cur) ->
  length (blk_ID cb) = IDLen ->
  exists hi1,
    doRepair_iter hi cur = Running hi1 (blk_Parent b)
    /\ batch hi1 = Batch.empty
    /\ Database.data (db (indexState hi1))
       = <[GetCheckpointKey := blk_ID cb]>
           (<[GetEntryKey (blk_Height b) := cur]> (pending hi))
    /\ Database.Get (db (indexState hi1)) (GetEntryKey (blk_Height b)) = Ok cur
    /\ GetCheckpoint (indexState hi1) = Ok (blk_ID cb)
    /\ (shouldRepair (restart hi1)).1 = (true, blk_ID cb, None).
Proof.
  intros Hblk Hpar Hopen Hf Hd Hsize Hlen.
  pose proof (GetEntryKey_not_checkpoint (blk_Height b)) as Hck.
  assert (HT : ToID (blk_ID cb) = Ok (blk_ID cb))
    by (unfold ToID; rewrite Hlen, Nat.eqb_refl; reflexivity).
  unfold doRepair_iter. rewrite Hblk.
  unfold getBlockIDAtHeight.
  rewrite (GetBlockIDAtHeight_missing _ _ Hf Hopen Hd).
  unfold batchPut, Batch.Put, doCheckpoint, batchPut, Batch.Put, batchWrite,
    Batch.Write, batchReset, logf, pending, shouldRepair, restart, GetCheckpoint,
    Database.Get in *.
  revert Hf Hd Hck Hsize.
  generalize (GetEntryKey (blk_Height b)). generalize GetCheckpointKey.
  intros ck key Hf Hd Hck Hsize.
  simpl. rewrite Hopen. simpl.
  destruct (_ >? _) eqn:G; [|rewrite Z.gtb_ltb in G; apply Z.ltb_ge in G; lia].
  rewrite Hpar, Hopen. simpl. rewrite Hopen.
  eexists. split; [reflexivity|]. simpl.
  rewrite !fold_left_app. simpl.
  split; [reflexivity|]. split; [reflexivity|].
  rewrite lookup_insert_eq.
  rewrite lookup_insert_ne by (intros E; apply Hck; symmetry; exact E).
  rewrite lookup_insert_eq, HT. simpl.
  repeat split; reflexivity.
Qed.

Lemma doRepair_commit_turn_witness :
  exists hi1,
    doRepair_iter (afterProbe (freshIndexer 3 0)) (chainID 3) = Running hi1 (chainID 2)
    /\ GetCheckpoint (indexState hi1) = Ok (chainID 2)
    /\ (shouldRepair (restart hi1)).1 = (true, chainID 2, None).
Proof.
  destruct (doRepair_commit_turn (afterProbe (freshIndexer 3 0)) (chainID 3)
              (chainBlock 3) (chainBlock 2))
    as (hi1 & R & _ & _ & _ & C & P).
  - vm_compute. reflexivity.
  - vm_compute. reflexivity.
  - reflexivity.
  - vm_compute. reflexivity.
  - vm_compute. reflexivity.
  - vm_compute. reflexivity.
  - reflexivity.
  - exists hi1. split; [exact R|]. split; [exact C | exact P].
Defined.

End RepairerRuns.

(** ** Height queries *)

Section Queries.
Import HeightIndexKeys HeightIndex Logging Indexer ProposerVM Fixtures HeightQueries.

(** Writing an entry on an open store leaves the fork height alone, and
    the entry is read back. *)
Lemma SetBlockIDAtHeight_then_read (s : index) (height : Z) (blkID : ID) :
  Database.closed (db s) = false ->
  length blkID = IDLen ->
  exists s',
    SetBlockIDAtHeight s height blkID = (s', None)
    /\ GetForkHeight s' = GetForkHeight s
    /\ (GetBlockIDAtHeight s' height).1 = Ok blkID
    /\ Database.Commit (db s') = None.
Proof.
  intros Hopen Hlen.
  pose proof (GetEntryKey_not_fork height) as Hne.
  assert (HT : ToID blkID = Ok blkID)
    by (unfold ToID; rewrite Hlen, Nat.eqb_refl; reflexivity).
  unfold SetBlockIDAtHeight, Database.Put. rewrite Hopen.
  eexists. split; [reflexivity|].
  unfold GetForkHeight, Database.GetUInt64, Database.Get, GetBlockIDAtHeight,
    Database.Commit, Database.Get in *.
  revert Hne. generalize (GetEntryKey height). generalize GetForkKey.
  intros fk ek Hne.
  cbn [db blkHeightsCache Database.closed Database.data].
  rewrite Hopen.
  rewrite lookup_insert_ne by exact Hne.
  split; [reflexivity|]. split; [|reflexivity].
  unfold LRU.Get.
  destruct (LRU.find ek (LRU.entries (LRU.Put (blkHeightsCache s) ek blkID)))
    as [v|] eqn:F.
  - apply LRU_Put_find_same in F. subst v. reflexivity.
  - rewrite lookup_insert_eq, HT. reflexivity.
Qed.

(** Lowering the fork height stores it. *)
Lemma SetForkHeight_then_read (s : index) (height : Z) :
  Database.closed (db s) = false ->
  0 <= height < 2 ^ 64 ->
  exists s',
    SetForkHeight s height = (s', None) /\ GetForkHeight s' = Ok height.
Proof.
  intros Hopen Hh.
  pose proof (Uint64_PackUInt64 height Hh) as Hpack.
  pose proof (PackUInt64_length height) as Hplen.
  unfold SetForkHeight, Database.PutUInt64, Database.Put. rewrite Hopen.
  eexists. split; [reflexivity|].
  unfold GetForkHeight, Database.GetUInt64, Database.Get.
  revert Hpack Hplen. generalize (Database.PackUInt64 height). generalize GetForkKey.
  intros fk packed Hpack Hplen.
  cbn [db blkHeightsCache Database.closed Database.data].
  rewrite lookup_insert_eq, Hplen. cbn [Nat.eqb LongLen]. rewrite Hpack. reflexivity.
Qed.

(** X13. A live write is answered by the proposer index. When
    [storeHeightEntry] finds a readable fork height it returns [nil]; the
    fork height is then the smaller of the old one and the block's height,
    so it never rises; and [GetBlockIDByHeight] of that height answers the
    block from the proposer's own index (never the inner VM's) once the
    repair is done, and [errIndexIncomplete] before. *)
Theorem storeHeightEntry_then_query
    (inner : Z -> answer) (vm : VM) (height : Z) (blkID : ID) (fh : Z) :
  GetForkHeight (State vm) = Ok fh ->
  0 <= height < 2 ^ 64 ->
  length blkID = IDLen ->
  exists vm',
    storeHeightEntry vm height blkID = (vm', None)
    /\ GetForkHeight (State vm') = Ok (Z.min fh height)
    /\ (GetBlockIDByHeight inner vm' height).1
       = if IsRepaired (hIndexer vm) then Answer blkID else IndexIncomplete.
Proof.
  intros Hfh Hh Hlen.
  pose proof (GetForkHeight_open _ _ Hfh) as Hopen.
  assert (HS : forall lv f v, State (vlogf lv f v) = State v) by reflexivity.
  assert (HW : forall v s, State (with_State v s) = s) by reflexivity.
  assert (HI : forall lv f v, hIndexer (vlogf lv f v) = hIndexer v) by reflexivity.
  assert (HJ : forall v s, jobDone (hIndexer (with_State v s)) = jobDone (hIndexer v))
    by reflexivity.
  assert (Hq : forall v s m,
             jobDone (hIndexer v) = jobDone (hIndexer vm) ->
             State v = s ->
             GetForkHeight s = Ok m -> m <= height ->
             (GetBlockIDAtHeight s height).1 = Ok blkID ->
             (GetBlockIDByHeight inner v height).1
             = if IsRepaired (hIndexer vm) then Answer blkID else IndexIncomplete).
  { intros v s m Hj Hs Hm Hle Hr. unfold GetBlockIDByHeight, IsRepaired.
    rewrite Hj. destruct (jobDone (hIndexer vm)); [|reflexivity].
    cbn [negb]. rewrite Hs, Hm.
    destruct (height <? m) eqn:L; [apply Z.ltb_lt in L; lia|].
    destruct (GetBlockIDAtHeight s height) as [r s3]. cbn [fst] in *.
    rewrite Hr. reflexivity. }
  unfold storeHeightEntry. rewrite Hfh.
  destruct (fh >? height) eqn:G.
  - rewrite Z.gtb_ltb in G. apply Z.ltb_lt in G.
    destruct (SetForkHeight_then_read (State vm) height Hopen Hh) as (s1 & E1 & F1).
    rewrite HS, E1. cbv beta iota zeta. rewrite HW.
    destruct (SetBlockIDAtHeight_then_read s1 height blkID
                (GetForkHeight_open _ _ F1) Hlen) as (s2 & E2 & F2 & R2 & C2).
    rewrite F1 in F2.
    rewrite E2. cbv beta iota zeta. rewrite HS, HW, C2.
    eexists. split; [reflexivity|]. rewrite HS, HW.
    rewrite Z.min_r by lia. split; [exact F2|].
    apply (Hq _ s2 height); auto. lia.
  - rewrite Z.gtb_ltb in G. apply Z.ltb_ge in G.
    destruct (SetBlockIDAtHeight_then_read (State vm) height blkID Hopen Hlen)
      as (s2 & E2 & F2 & R2 & C2).
    rewrite Hfh in F2.
    cbv beta iota zeta. rewrite E2. cbv beta iota zeta. rewrite HS, HW, C2.
    eexists. split; [reflexivity|]. rewrite HS, HW.
    rewrite Z.min_l by lia. split; [exact F2|].
    apply (Hq _ s2 fh); auto.
Qed.

Lemma storeHeightEntry_then_query_witness :
  exists vm',
    storeHeightEntry (vmOver (forkedIndex 9 None) true) 4 (chainID 4) = (vm', None)
    /\ GetForkHeight (State vm') = Ok 4
    /\ (GetBlockIDByHeight (fun _ => IndexIncomplete) vm' 4).1 = Answer (chainID 4).
Proof.
  apply (storeHeightEntry_then_query (fun _ => IndexIncomplete)
           (vmOver (forkedIndex 9 None) true) 4 (chainID 4) 9).
  - reflexivity.
  - lia.
  - reflexivity.
Defined.

(** X14. The platform VM indexes every accepted block at once, repair or
    not: on an open store [updateHeightIndex] returns [nil] and leaves the
    done flag as it was; [GetBlockIDByHeight] of that height then answers
    the block when the repair is done and refuses with
    [errIndexIncomplete] when it is not, the entry being stored all the
    same. On a closed store the update returns the store's error. *)
Theorem platform_update_then_query
    (vm : PlatformVM.VM) (height : Z) (blkID : ID) :
  length blkID = IDLen ->
  (Database.closed (db (PlatformVM.internalState vm)) = false ->
   exists vm',
     PlatformVM.updateHeightIndex vm height blkID = (vm', None)
     /\ PlatformVM.IsHeightIndexComplete vm' = PlatformVM.IsHeightIndexComplete vm
     /\ Database.Get (db (PlatformVM.internalState vm')) (GetEntryKey height) = Ok blkID
     /\ (PlatformVM.GetBlockIDByHeight vm' height).1
        = if PlatformVM.IsHeightIndexComplete vm then Answer blkID else IndexIncomplete)
  /\ (Database.closed (db (PlatformVM.internalState vm)) = true ->
      (PlatformVM.updateHeightIndex vm height blkID).2 = Some ErrClosed).
Proof.
  intros Hlen. split.
  - intros Hopen.
    destruct (SetBlockIDAtHeight_then_read (PlatformVM.internalState vm) height blkID
                Hopen Hlen) as (s2 & E2 & _ & R2 & _).
    unfold PlatformVM.updateHeightIndex. rewrite E2.
    eexists. split; [reflexivity|].
    unfold PlatformVM.GetBlockIDByHeight, PlatformVM.IsHeightIndexComplete, IsRepaired.
    cbn [PlatformVM.HeightIndexer PlatformVM.with_internalState with_indexState jobDone].
    split; [reflexivity|]. split.
    + unfold PlatformVM.internalState.
      cbn [PlatformVM.HeightIndexer PlatformVM.with_internalState with_indexState
           indexState].
      unfold SetBlockIDAtHeight, Database.Put in E2. rewrite Hopen in E2.
      inversion E2; subst s2. unfold Database.Get.
      cbn [db Database.closed Database.data]. rewrite lookup_insert_eq. reflexivity.
    + destruct (jobDone (PlatformVM.HeightIndexer vm)); [|reflexivity].
      cbn [negb]. unfold PlatformVM.internalState.
      cbn [PlatformVM.HeightIndexer PlatformVM.with_internalState with_indexState
           indexState].
      destruct (GetBlockIDAtHeight s2 height) as [r s3]. cbn [fst] in *.
      rewrite R2. reflexivity.
  - intros Hcl. unfold PlatformVM.updateHeightIndex, SetBlockIDAtHeight, Database.Put.
    rewrite Hcl. reflexivity.
Qed.

Lemma platform_update_then_query_witness :
  exists vm',
    PlatformVM.updateHeightIndex
      (PlatformVM.mkVM (indexedIndexer 3) NoLog) 4 (chainID 4) = (vm', None)
    /\ (PlatformVM.GetBlockIDByHeight vm' 4).1 = IndexIncomplete.
Proof.
  destruct (platform_update_then_query (PlatformVM.mkVM (indexedIndexer 3) NoLog)
              4 (chainID 4) eq_refl) as [H _].
  destruct (H eq_refl) as (vm' & U & _ & _ & Q).
  exists vm'. split; [exact U | exact Q].
Defined.

End Queries.

(** ** Order of service of the throttled queue *)

Section ThrottledOrder.
Import PeerQueue.
Context {T : Type} `{OutboundMsgThrottler T}.

(** The reservations granted, in the order granted, are those given back,
    in the order given back, followed by the queue. *)
Lemma in_order_step (q : throttledMessageQueue T) (o : op) :
  acquiredMsgs (calls q) = releasedMsgs (calls q) ++ queue q ->
  (closed q = true -> queue q = []) ->
  acquiredMsgs (calls (step q o)) = releasedMsgs (calls (step q o)) ++ queue (step q o)
  /\ (closed (step q o) = true -> queue (step q o) = []).
Proof.
  intros Hp Hc. destruct o as [msg| | |]; cbn [step].
  - unfold Push.
    destruct (Acquire (outboundMsgThrottler q) msg (id q)) as [ok th].
    destruct ok; cbn [negb closed snd].
    + destruct (closed q) eqn:C; cbn [snd].
      * split; [|intros _; apply Hc; reflexivity].
        rewrite calls_sendFailed, calls_release. cbn [calls queue sendFailed release].
        rewrite !acquiredMsgs_snoc, !releasedMsgs_snoc.
        rewrite !app_nil_r, Hp, (Hc eq_refl), !app_nil_r. reflexivity.
      * split; [|cbn [closed with_queue]; discriminate].
        cbn [calls queue with_queue].
        rewrite acquiredMsgs_snoc, releasedMsgs_snoc.
        rewrite app_nil_r, Hp, app_assoc. reflexivity.
    + split; [|exact Hc].
      rewrite calls_sendFailed. cbn [calls queue sendFailed].
      rewrite !acquiredMsgs_snoc, !releasedMsgs_snoc.
      rewrite !app_nil_r. exact Hp.
  - unfold Pop. destruct (closed q) eqn:C;
      [cbn [snd]; split; [exact Hp | intros _; apply Hc; reflexivity]|].
    destruct (queue q) as [|msg rest] eqn:Q; [cbn [snd]; rewrite Q; split; [exact Hp | auto]|].
    cbn [snd]. split.
    + rewrite calls_release. cbn [queue release with_queue calls].
      rewrite acquiredMsgs_snoc, releasedMsgs_snoc.
      rewrite app_nil_r, Hp, <- app_assoc. reflexivity.
    + cbn [closed queue release with_queue]. intros C'. rewrite C in C'. discriminate.
  - unfold PopWithoutBlocking.
    destruct (queue q) as [|msg rest] eqn:Q; [cbn [snd]; rewrite Q; split; [exact Hp | auto]|].
    cbn [snd]. split.
    + rewrite calls_release. cbn [queue release with_queue calls].
      rewrite acquiredMsgs_snoc, releasedMsgs_snoc.
      rewrite app_nil_r, Hp, <- app_assoc. reflexivity.
    + cbn [closed queue release with_queue]. intros C. specialize (Hc C). discriminate.
  - unfold Close.
    pose proof (Close_fold (queue q)
      (mkThrottled (id q) (outboundMsgThrottler q) true (queue q) (calls q)))
      as (A & R & C).
    cbn [calls queue closed] in *. split.
    + cbn [calls queue with_queue]. rewrite A, R, app_nil_r. exact Hp.
    + reflexivity.
Qed.

Lemma in_order_run (ops : list op) (q : throttledMessageQueue T) :
  acquiredMsgs (calls q) = releasedMsgs (calls q) ++ queue q ->
  (closed q = true -> queue q = []) ->
  acquiredMsgs (calls (run q ops)) = releasedMsgs (calls (run q ops)) ++ queue (run q ops)
  /\ (closed (run q ops) = true -> queue (run q ops) = []).
Proof.
  revert q. induction ops as [|o ops IH]; intros q Hp Hc; simpl.
  - split; assumption.
  - destruct (in_order_step q o Hp Hc) as [Hp' Hc']. apply IH; assumption.
Qed.

End ThrottledOrder.

Section ThrottledService.
Import PeerQueue.

(** X16. The throttled queue serves in the order of admission. After any
    sequence of calls on a new queue, the messages whose reservation was
    granted, in the order granted, are the messages whose reservation was
    given back, in the order given back, followed by the queue; so a
    message handed out by [Pop] or [PopWithoutBlocking] is the oldest
    admitted message not yet released, and it is what [Release] is then
    called with. *)
Theorem throttled_served_in_order
    (T : Type) (Th : OutboundMsgThrottler T)
    (nodeID : NodeID) (th : T) (ops : list op) :
  acquiredMsgs (calls (run (NewThrottledMessageQueue nodeID th) ops))
    = releasedMsgs (calls (run (NewThrottledMessageQueue nodeID th) ops))
      ++ queue (run (NewThrottledMessageQueue nodeID th) ops)
  /\ forall m q',
       Pop (run (NewThrottledMessageQueue nodeID th) ops) = (Popped m, q')
       \/ PopWithoutBlocking (run (NewThrottledMessageQueue nodeID th) ops) = (Popped m, q') ->
       acquiredMsgs (calls (run (NewThrottledMessageQueue nodeID th) ops))
         = releasedMsgs (calls (run (NewThrottledMessageQueue nodeID th) ops))
           ++ m :: queue q'
       /\ releasedMsgs (calls q')
          = releasedMsgs (calls (run (NewThrottledMessageQueue nodeID th) ops)) ++ [m].
Proof.
  destruct (in_order_run ops (NewThrottledMessageQueue nodeID th) eq_refl
              (fun _ => eq_refl)) as [Hp _].
  generalize dependent (run (NewThrottledMessageQueue nodeID th) ops).
  intros q Hp. split; [exact Hp|].
  intros m q' E.
  assert (Hq : queue q = m :: queue q'
               /\ calls q' = calls q ++ [CallRelease m]).
  { destruct E as [E|E].
    - unfold Pop in E. destruct (closed q); [discriminate|].
      destruct (queue q) as [|x rest]; [discriminate|].
      inversion E; subst. split; reflexivity.
    - unfold PopWithoutBlocking in E.
      destruct (queue q) as [|x rest]; [discriminate|].
      inversion E; subst. split; reflexivity. }
  destruct Hq as [Hq Hcalls]. split.
  - rewrite Hp, Hq. reflexivity.
  - rewrite Hcalls, releasedMsgs_snoc. reflexivity.
Qed.

Lemma throttled_served_in_order_witness :
  exists q',
    Pop (run (NewThrottledMessageQueue [] 10)
           [OpPush (mkMsg 1 [1; 2; 3]); OpPush (mkMsg 2 (repeat 0 20));
            OpPush (mkMsg 3 [4]); OpPop]) = (Popped (mkMsg 3 [4]), q')
    /\ releasedMsgs (calls q') = [mkMsg 1 [1; 2; 3]; mkMsg 3 [4]]
    /\ queue q' = [].
Proof.
  destruct (Pop (run (NewThrottledMessageQueue [] 10)
           [OpPush (mkMsg 1 [1; 2; 3]); OpPush (mkMsg 2 (repeat 0 20));
            OpPush (mkMsg 3 [4]); OpPop])) as [r q'] eqn:E.
  assert (Hr : r = Popped (mkMsg 3 [4])) by (vm_compute in E; congruence).
  subst r. exists q'. split; [reflexivity|].
  destruct (throttled_served_in_order Z byteBudget [] 10
              [OpPush (mkMsg 1 [1; 2; 3]); OpPush (mkMsg 2 (repeat 0 20));
               OpPush (mkMsg 3 [4]); OpPop]) as [_ Hpop].
  destruct (Hpop (mkMsg 3 [4]) q' (or_introl E)) as [Ha Hr].
  split.
  - rewrite Hr. vm_compute. reflexivity.
  - vm_compute in Ha. injection Ha as Ha. symmetry. exact Ha.
Defined.

End ThrottledService.

(** ** Capacity and closing of the blocking queue *)

Section BlockingClose.
Import PeerQueue QueueBounds.

Lemma drain_fold_fields (l : list OutboundMessage) (q : blockingMessageQueue) :
  sendFailedLog (fold_left (fun q msg => SendFailed msg q) l q) = sendFailedLog q ++ l
  /\ closing (fold_left (fun q msg => SendFailed msg q) l q) = closing q
  /\ closeOnce (fold_left (fun q msg => SendFailed msg q) l q) = closeOnce q
  /\ readers (fold_left (fun q msg => SendFailed msg q) l q) = readers q.
Proof.
  revert q. induction l as [|m l IH]; intros q; cbn [fold_left].
  - rewrite app_nil_r. auto.
  - destruct (IH (SendFailed m q)) as (L & C & O & R).
    rewrite L, C, O, R. cbn [SendFailed sendFailedLog closing closeOnce readers].
    rewrite <- app_assoc. auto.
Qed.

Lemma bstep_boundedBy (n : nat) (q : blockingMessageQueue) (o : bop) :
  boundedBy n q -> boundedBy n (bstep q o).
Proof.
  intros (Hcap & Hlen & Hopen & Honce). unfold boundedBy.
  destruct o as [msg|sched ctxDone msg|sched| | |]; cbn [bstep].
  - unfold Push_enter. cbn [RLock closing].
    destruct (closing q) eqn:C; cbn; rewrite ?C; auto.
  - unfold Push_select.
    destruct (pick sched (pushReady ctxDone q)) as [c|] eqn:P; [|cbn; auto].
    apply pick_In, In_pushReady in P. destruct c; [|cbn; auto|cbn; auto].
    rewrite Hopen. cbn. unfold sendReady in P. rewrite Hopen in P. cbn in P.
    apply Nat.ltb_lt in P. rewrite Hcap in P. rewrite length_app. cbn [length].
    repeat split; auto. rewrite Nat.add_1_r. exact P.
  - unfold BPop. destruct (pick sched _) as [[]|]; cbn; auto.
    destruct (buf (bqueue q)) as [|m rest] eqn:B; cbn in *;
      repeat split; rewrite ?B; cbn; auto; lia.
  - unfold BPopWithoutBlocking.
    destruct (buf (bqueue q)) as [|m rest] eqn:B; cbn in *;
      repeat split; rewrite ?B; cbn; auto; lia.
  - destruct (closeOnce q) eqn:O; cbn; rewrite ?O; auto.
  - unfold Close_drain. destruct (readers q =? 0)%nat; cbn; auto.
    destruct (drain_fold_fields (buf (bqueue q)) q) as (_ & C & O & _).
    rewrite drain_fold_bqueue, C, O. repeat split; auto; lia.
Qed.

Lemma brun_boundedBy (n : nat) (ops : list bop) (q : blockingMessageQueue) :
  boundedBy n q -> boundedBy n (brun q ops).
Proof.
  revert q. induction ops as [|o ops IH]; intros q Hb; cbn.
  - exact Hb.
  - apply IH. apply bstep_boundedBy. exact Hb.
Qed.

Lemma bstep_closing (q : blockingMessageQueue) (o : bop) :
  closing q = true -> closing (bstep q o) = true.
Proof.
  intros C. destruct o as [msg|sched ctxDone msg|sched| | |]; cbn [bstep].
  - unfold Push_enter. cbn [RLock closing]. rewrite C. exact C.
  - unfold Push_select.
    destruct (pick sched (pushReady ctxDone q)) as [[]|]; cbn; auto.
    destruct (chClosed (bqueue q)); cbn; auto.
  - unfold BPop. destruct (pick sched _) as [[]|]; cbn; auto.
    destruct (buf (bqueue q)); cbn; auto.
  - unfold BPopWithoutBlocking. destruct (buf (bqueue q)); cbn; auto.
  - destruct (closeOnce q); cbn; auto.
  - unfold Close_drain. destruct (readers q =? 0)%nat; cbn; auto.
    destruct (drain_fold_fields (buf (bqueue q)) q) as (_ & C' & _).
    rewrite C'. exact C.
Qed.

(** X17. The blocking queue along any sequence of calls on a new queue:
    the buffer never holds more than [bufferSize] messages; once [closing]
    is triggered it stays so; a [Close] after the first does nothing; the
    first [Close] waits while a [Push] holds the read lock, and otherwise
    empties the buffer, counting each drained message once with
    [SendFailed], in order, after which every [Push] returns false. *)
Theorem blocking_queue_bounded_and_drained (bufferSize : nat) (ops : list bop) :
  let q := brun (NewBlockingMessageQueue bufferSize) ops in
  (length (buf (bqueue q)) <= bufferSize)%nat
  /\ cap (bqueue q) = bufferSize
  /\ (forall o, closing q = true -> closing (bstep q o) = true)
  /\ (closeOnce q = true -> BClose q = Some q)
  /\ (closeOnce q = false -> readers q <> 0%nat -> BClose q = None)
  /\ (closeOnce q = false -> readers q = 0%nat ->
      exists q',
        BClose q = Some q'
        /\ buf (bqueue q') = []
        /\ sendFailedLog q' = sendFailedLog q ++ buf (bqueue q)
        /\ BClose q' = Some q'
        /\ forall sched ctxDone msg,
             BPush sched ctxDone msg q' = PushReturned false (SendFailed msg q')).
Proof.
  intros q.
  assert (Hb : boundedBy bufferSize q).
  { apply brun_boundedBy. repeat split; cbn; lia. }
  clearbody q. destruct Hb as (Hcap & Hlen & Hopen & Honce).
  split; [exact Hlen|]. split; [exact Hcap|].
  split; [intros o C; apply bstep_closing; exact C|].
  split; [intros O; unfold BClose; rewrite O; reflexivity|].
  split.
  - intros O R. unfold BClose, Close_drain, Close_trigger. rewrite O.
    cbn [readers]. apply Nat.eqb_neq in R. rewrite R. reflexivity.
  - intros O R. unfold BClose, Close_drain, Close_trigger. rewrite O.
    cbn [readers bqueue]. rewrite R. cbn [Nat.eqb].
    eexists. split; [reflexivity|].
    destruct (drain_fold_fields (buf (bqueue q))
                (mkBlocking true 0 true (bqueue q) (sendFailedLog q)))
      as (L & C & O' & R').
    cbn [sendFailedLog closing closeOnce readers] in L, C, O', R'.
    split; [reflexivity|]. split; [exact L|].
    split; [unfold with_buf; cbn [closeOnce]; rewrite O'; reflexivity|].
    intros sched ctxDone msg. unfold BPush, Push_enter.
    cbn [RLock closing with_buf]. rewrite C. reflexivity.
Qed.

Lemma blocking_queue_bounded_and_drained_witness :
  exists q',
    BClose (brun (NewBlockingMessageQueue 2)
              [BOpPushEnter (mkMsg 1 [1]); BOpPushSelect 0 false (mkMsg 1 [1]);
               BOpPushEnter (mkMsg 2 [2]); BOpPushSelect 0 false (mkMsg 2 [2]);
               BOpPop 0]) = Some q'
    /\ buf (bqueue q') = []
    /\ sendFailedLog q' = [mkMsg 2 [2]]
    /\ BPush 0 false (mkMsg 3 [3]) q' = PushReturned false (SendFailed (mkMsg 3 [3]) q').
Proof.
  destruct (blocking_queue_bounded_and_drained 2
              [BOpPushEnter (mkMsg 1 [1]); BOpPushSelect 0 false (mkMsg 1 [1]);
               BOpPushEnter (mkMsg 2 [2]); BOpPushSelect 0 false (mkMsg 2 [2]);
               BOpPop 0]) as (_ & _ & _ & _ & _ & H).
  destruct (H eq_refl eq_refl) as (q' & E & B & L & _ & P).
  exists q'. split; [exact E|]. split; [exact B|]. split; [exact L|]. apply P.
Defined.

End BlockingClose.

(** ** Waiting for a healthy node *)

Section AwaitingHealth.
Import HealthClient.

Lemma awaitLoop_first_healthy (n : nat) :
  forall (err : option herror) (c : client) (k : nat),
  (k < n)%nat ->
  healthy (requester c (sent c + k)%nat) = true ->
  (forall j, (j < k)%nat -> healthy (requester c (sent c + j)%nat) = false) ->
  awaitLoop n err c
  = ((true, None), mkClient (requester c) (sent c + S k) (slept c + S k)).
Proof.
  induction n as [|n IH]; intros err c k Hk Hh Hbefore; [lia|].
  cbn [awaitLoop]. unfold Health, Sleep. cbn [requester sent slept].
  destruct k as [|k].
  - rewrite Nat.add_0_r in Hh. rewrite Hh.
    rewrite !Nat.add_1_r. reflexivity.
  - pose proof (Hbefore 0%nat ltac:(lia)) as H0. rewrite Nat.add_0_r in H0.
    rewrite H0.
    rewrite (IH _ (mkClient (requester c) (S (sent c)) (S (slept c))) k).
    + cbn [requester sent slept]. f_equal. f_equal; lia.
    + lia.
    + cbn [requester sent]. rewrite <- Hh. f_equal. f_equal. lia.
    + intros j Hj. cbn [requester sent].
      rewrite <- (Hbefore (S j) ltac:(lia)). f_equal. f_equal. lia.
Qed.

Lemma awaitLoop_never_healthy (n : nat) :
  forall (err : option herror) (c : client),
  (forall j, (j < n)%nat -> healthy (requester c (sent c + j)%nat) = false) ->
  awaitLoop n err c
  = ((false, match n with
             | O => err
             | S m => (requester c (sent c + m)%nat).2
             end),
     mkClient (requester c) (sent c + n) (slept c + n)).
Proof.
  induction n as [|n IH]; intros err c Hnone.
  - cbn [awaitLoop]. rewrite !Nat.add_0_r. destruct c; reflexivity.
  - cbn [awaitLoop]. unfold Health, Sleep. cbn [requester sent slept].
    pose proof (Hnone 0%nat ltac:(lia)) as H0. rewrite Nat.add_0_r in H0.
    rewrite H0.
    rewrite (IH _ (mkClient (requester c) (S (sent c)) (S (slept c)))).
    + cbn [requester sent slept]. f_equal.
      * f_equal. destruct n as [|m]; [rewrite Nat.add_0_r; reflexivity|].
        f_equal. f_equal. lia.
      * f_equal; lia.
    + intros j Hj. cbn [requester sent].
      rewrite <- (Hnone (S j) ltac:(lia)). f_equal. f_equal. lia.
Qed.

(** X18. [AwaitHealthy] asks at most [numChecks] times and stops at the
    first healthy answer. With [numChecks < 1] it returns
    [errInvalidNumberOfChecks] without sending a request. Otherwise, if
    request number [k] (counting from 0, [k < numChecks]) is the first
    answered without error and healthy, it returns [(true, nil)] after
    exactly [k + 1] requests and [k] pauses; and if none of the first
    [numChecks] requests is, it returns false with the error of the last
    of them (which may be nil) after exactly [numChecks] requests and
    [numChecks - 1] pauses. *)
Theorem AwaitHealthy_stops_at_first_healthy (c : client) (numChecks : Z) :
  (numChecks < 1 ->
   AwaitHealthy c numChecks = ((false, Some errInvalidNumberOfChecks), c))
  /\ (forall k : nat,
        Z.of_nat k < numChecks ->
        healthy (requester c (sent c + k)%nat) = true ->
        (forall j, (j < k)%nat -> healthy (requester c (sent c + j)%nat) = false) ->
        AwaitHealthy c numChecks
        = ((true, None), mkClient (requester c) (sent c + S k) (slept c + k)))
  /\ (1 <= numChecks ->
      (forall j : nat, Z.of_nat j < numChecks ->
                       healthy (requester c (sent c + j)%nat) = false) ->
      AwaitHealthy c numChecks
      = ((false, (requester c (sent c + Z.to_nat (numChecks - 1))%nat).2),
         mkClient (requester c) (sent c + Z.to_nat numChecks)
                  (slept c + Z.to_nat (numChecks - 1)))).
Proof.
  split; [|split].
  - intros Hn. unfold AwaitHealthy.
    destruct (numChecks <? 1) eqn:L; [reflexivity | apply Z.ltb_ge in L; lia].
  - intros k Hk Hh Hbefore. unfold AwaitHealthy.
    destruct (numChecks <? 1) eqn:L; [apply Z.ltb_lt in L; lia|].
    unfold Health. destruct k as [|k].
    + rewrite Nat.add_0_r in Hh. rewrite Hh.
      rewrite Nat.add_1_r, Nat.add_0_r. reflexivity.
    + pose proof (Hbefore 0%nat ltac:(lia)) as H0. rewrite Nat.add_0_r in H0.
      rewrite H0.
      rewrite (awaitLoop_first_healthy _ _
                 (mkClient (requester c) (S (sent c)) (slept c)) k).
      * cbn [requester sent slept]. f_equal. f_equal; lia.
      * lia.
      * cbn [requester sent]. rewrite <- Hh. f_equal. f_equal. lia.
      * intros j Hj. cbn [requester sent].
        rewrite <- (Hbefore (S j) ltac:(lia)). f_equal. f_equal. lia.
  - intros Hn Hnone. unfold AwaitHealthy.
    destruct (numChecks <? 1) eqn:L; [apply Z.ltb_lt in L; lia|].
    unfold Health.
    pose proof (Hnone 0%nat ltac:(lia)) as H0. rewrite Nat.add_0_r in H0.
    rewrite H0.
    rewrite (awaitLoop_never_healthy _ _
               (mkClient (requester c) (S (sent c)) (slept c))).
    + cbn [requester sent slept]. f_equal.
      * f_equal. destruct (Z.to_nat (numChecks - 1)) as [|m] eqn:E.
        -- rewrite Nat.add_0_r. reflexivity.
        -- f_equal. f_equal. lia.
      * f_equal; lia.
    + intros j Hj. cbn [requester sent].
      rewrite <- (Hnone (S j) ltac:(lia)). f_equal. f_equal. lia.
Qed.

Lemma AwaitHealthy_stops_at_first_healthy_witness :
  AwaitHealthy
    (mkClient (fun k => if (k =? 2)%nat then (mkReply true, None)
                        else if (k =? 1)%nat then (mkReply true, Some (errRequest 503))
                        else (mkReply false, None)) 0 0) 5
  = ((true, None),
     mkClient (fun k => if (k =? 2)%nat then (mkReply true, None)
                        else if (k =? 1)%nat then (mkReply true, Some (errRequest 503))
                        else (mkReply false, None)) 3 2).
Proof.
  apply (proj1 (proj2 (AwaitHealthy_stops_at_first_healthy
           (mkClient (fun k => if (k =? 2)%nat then (mkReply true, None)
                        else if (k =? 1)%nat then (mkReply true, Some (errRequest 503))
                        else (mkReply false, None)) 0 0) 5)) 2%nat).
  - lia.
  - reflexivity.
  - intros j Hj. destruct j as [|[|j]]; [reflexivity | reflexivity | lia].
Defined.

End AwaitingHealth.

(** ** Taking and freeing locks of the pool *)

Section LockPoolUse.
Import LockPool.

Lemma List_map_insert {A B : Type} (f : A -> B) (l : list A) (k : nat) (x : A) :
  map f (<[k := x]> l) = <[k := f x]> (map f l).
Proof. exact (list_fmap_insert f l k x). Qed.

Lemma scan_found (l : list basicLock) :
  forall (i j : Z) (l' : list basicLock),
  scan i l = Some (j, l') ->
  exists k : nat,
    j = i + Z.of_nat k
    /\ map free l !! k = Some true
    /\ (forall m, (m < k)%nat -> map free l !! m = Some false)
    /\ map free l' = <[k := false]> (map free l)
    /\ map held l' = map held l.
Proof.
  induction l as [|lock rest IH]; intros i j l' E; cbn [scan] in E; [discriminate|].
  destruct (free lock) eqn:F.
  - inversion E; subst. exists 0%nat. cbn. rewrite F.
    split; [lia|]. split; [reflexivity|]. split; [intros m Hm; lia|].
    split; reflexivity.
  - destruct (scan (i + 1) rest) as [[j' rest']|] eqn:Hs; [|discriminate].
    inversion E; subst.
    destruct (IH _ _ _ Hs) as (k & Hj & Hk & Hbefore & Hflags & Hheld).
    exists (S k). cbn. rewrite F, Hflags, Hheld.
    split; [lia|]. split; [exact Hk|]. split; [|split; reflexivity].
    intros m Hm. destruct m as [|m]; [reflexivity|]. apply Hbefore. lia.
Qed.

Lemma scan_none (l : list basicLock) (i : Z) :
  scan i l = None -> forall m b, map free l !! m = Some b -> b = false.
Proof.
  revert i. induction l as [|lock rest IH]; intros i E m b Hm; [discriminate|].
  cbn [scan] in E. destruct (free lock) eqn:F; [discriminate|].
  destruct (scan (i + 1) rest) as [[j' rest']|] eqn:Hs; [discriminate|].
  destruct m as [|m]; cbn in Hm.
  - rewrite F in Hm. inversion Hm. reflexivity.
  - exact (IH _ Hs m b Hm).
Qed.

Lemma GetFreeLock_found (p p' : t) (i : Z) :
  GetFreeLock p = ((i, true), p') ->
  exists k : nat,
    i = Z.of_nat k /\ 0 <= i < Len p
    /\ freeFlags p !! k = Some true
    /\ (forall m, (m < k)%nat -> freeFlags p !! m = Some false)
    /\ freeFlags p' = <[k := false]> (freeFlags p)
    /\ map held (pool p') = map held (pool p)
    /\ signalLen p' = signalLen p /\ signalCap p' = signalCap p.
Proof.
  unfold GetFreeLock, freeFlags, Len.
  destruct (scan 0 (pool p)) as [[j l']|] eqn:Hs; [|discriminate].
  intros E. inversion E; subst. clear E.
  destruct (scan_found _ _ _ _ Hs) as (k & Hj & Hk & Hbefore & Hflags & Hheld).
  exists k. cbn [pool signalLen signalCap].
  split; [lia|]. split.
  { apply lookup_lt_Some in Hk. rewrite length_map in Hk. lia. }
  repeat split; assumption.
Qed.

(** X19. [GetFreeLock] hands out the free lock of least index. When it
    returns [true], the index is within the pool, the lock at that index
    was free and every lock before it was not, that lock alone is marked
    taken, and neither the mutexes nor the signal channel are touched.
    When it returns [false], the index is 0, the pool is unchanged and no
    lock of it is free. *)
Theorem GetFreeLock_least_free (p : t) :
  match GetFreeLock p with
  | ((i, true), p') =>
      exists k : nat,
        i = Z.of_nat k /\ 0 <= i < Len p
        /\ freeFlags p !! k = Some true
        /\ (forall m, (m < k)%nat -> freeFlags p !! m = Some false)
        /\ freeFlags p' = <[k := false]> (freeFlags p)
        /\ map held (pool p') = map held (pool p)
        /\ signalLen p' = signalLen p /\ signalCap p' = signalCap p
  | ((i, false), p') =>
      i = 0 /\ p' = p /\ forall m b, freeFlags p !! m = Some b -> b = false
  end.
Proof.
  destruct (GetFreeLock p) as [[i [|]] p'] eqn:E.
  - exact (GetFreeLock_found _ _ _ E).
  - unfold GetFreeLock in E.
    destruct (scan 0 (pool p)) as [[j l']|] eqn:Hs; [discriminate|].
    inversion E; subst.
    split; [reflexivity|]. split; [reflexivity|]. exact (scan_none _ _ Hs).
Qed.

Lemma GetFreeLock_least_free_witness :
  exists p',
    GetFreeLock (mkPool [mkLock false true; mkLock true false; mkLock true false] 0 3)
      = ((1, true), p')
    /\ freeFlags p' = [false; false; true].
Proof.
  pose proof (GetFreeLock_least_free
                (mkPool [mkLock false true; mkLock true false; mkLock true false] 0 3))
    as H.
  destruct (GetFreeLock
              (mkPool [mkLock false true; mkLock true false; mkLock true false] 0 3))
    as [[i ok] p'] eqn:E.
  assert (Hi : i = 1 /\ ok = true) by (vm_compute in E; split; congruence).
  destruct Hi as [-> ->].
  destruct H as (k & Hk & _ & _ & _ & Hflags & _).
  exists p'. split; [reflexivity|].
  assert (k = 1%nat) by lia. subst k. exact Hflags.
Defined.

(** X20. Taking a lock and giving it back. If [GetFreeLock] hands out
    index [i], its caller locks that lock's mutex, and [Free(i)] is then
    called with room in the signal channel, [Free] returns, the [free]
    flags and the mutexes are as they were before [GetFreeLock], and one
    signal has been put into the channel. [Free] of an index outside the
    pool does nothing; [Free] of a lock whose mutex is not held stops the
    program; and with the channel full the version that sends in any case
    waits, while the other returns without a signal. *)
Theorem Free_gives_back (guarded : bool) (p : t) :
  (forall index, index < 0 \/ Len p <= index -> Free guarded index p = Completed p)
  /\ (forall index lock,
        0 <= index ->
        pool p !! Z.to_nat index = Some lock -> held lock = false ->
        Free guarded index p = Fatal)
  /\ (forall index lock,
        0 <= index ->
        pool p !! Z.to_nat index = Some lock -> held lock = true ->
        (signalCap p <= signalLen p)%nat ->
        Free guarded index p
        = (if guarded then Completed else Blocked)
            (mkPool (<[Z.to_nat index := mkLock true false]> (pool p))
                    (signalLen p) (signalCap p)))
  /\ (forall i p1 p2,
        GetFreeLock p = ((i, true), p1) ->
        LockAt i p1 = Some p2 ->
        (signalLen p < signalCap p)%nat ->
        exists p3,
          Free guarded i p2 = Completed p3
          /\ freeFlags p3 = freeFlags p
          /\ map held (pool p3) = map held (pool p)
          /\ signalLen p3 = S (signalLen p)
          /\ signalCap p3 = signalCap p).
Proof.
  split; [|split; [|split]].
  - intros index Hout. unfold Free.
    destruct ((index <? 0) || (index >=? Len p)) eqn:G; [reflexivity|].
    apply orb_false_iff in G. destruct G as [G1 G2].
    apply Z.ltb_ge in G1. rewrite Z.geb_leb in G2. apply Z.leb_gt in G2. lia.
  - intros index lock Hi Hl Hh. unfold Free.
    destruct ((index <? 0) || (index >=? Len p)) eqn:G.
    + apply orb_true_iff in G. destruct G as [G|G].
      * apply Z.ltb_lt in G. lia.
      * rewrite Z.geb_leb in G. apply Z.leb_le in G.
        apply lookup_lt_Some in Hl. unfold Len in G. lia.
    + rewrite Hl, Hh. reflexivity.
  - intros index lock Hi Hl Hh Hfull. unfold Free.
    destruct ((index <? 0) || (index >=? Len p)) eqn:G.
    + apply orb_true_iff in G. destruct G as [G|G].
      * apply Z.ltb_lt in G. lia.
      * rewrite Z.geb_leb in G. apply Z.leb_le in G.
        apply lookup_lt_Some in Hl. unfold Len in G. lia.
    + rewrite Hl, Hh. cbn [negb signalLen signalCap pool].
      destruct (signalLen p <? signalCap p)%nat eqn:R;
        [apply Nat.ltb_lt in R; lia|].
      destruct guarded; reflexivity.
  - intros i p1 p2 Hget Hlock Hroom.
    destruct (GetFreeLock_found _ _ _ Hget) as (k & Hk & Hrange & Hfree & _ & Hflags & Hheld & Hlen & Hcap).
    subst i.
    unfold LockAt in Hlock. rewrite Nat2Z.id in Hlock.
    destruct (pool p1 !! k) as [lock|] eqn:Hl; [|discriminate].
    destruct (held lock) eqn:Hh; [discriminate|].
    inversion Hlock; subst p2. clear Hlock.
    unfold Free, Len. cbn [pool signalLen signalCap].
    rewrite length_insert.
    assert (Hlenp : length (pool p1) = length (pool p)).
    { apply (f_equal length) in Hflags. unfold freeFlags in Hflags.
      rewrite length_insert, !length_map in Hflags. exact Hflags. }
    destruct ((Z.of_nat k <? 0) || (Z.of_nat k >=? Z.of_nat (length (pool p1)))) eqn:G.
    { apply orb_true_iff in G. destruct G as [G|G].
      - apply Z.ltb_lt in G. lia.
      - rewrite Z.geb_leb in G. apply Z.leb_le in G. unfold Len in Hrange. lia. }
    rewrite Nat2Z.id.
    rewrite list_lookup_insert_eq by (apply lookup_lt_Some in Hl; exact Hl).
    cbn [held negb]. rewrite list_insert_insert_eq. rewrite Hlen, Hcap.
    apply Nat.ltb_lt in Hroom. rewrite Hroom.
    eexists. split; [reflexivity|].
    unfold freeFlags in *. cbn [pool signalLen signalCap].
    split; [|split; [|split; reflexivity]].
    + rewrite List_map_insert. cbn [free]. rewrite Hflags.
      rewrite list_insert_insert_eq. apply list_insert_id. exact Hfree.
    + rewrite List_map_insert. cbn [held]. rewrite <- Hheld.
      apply list_insert_id.
      change (map held (pool p1)) with (held <$> pool p1).
      rewrite list_lookup_fmap, Hl. cbn. rewrite Hh. reflexivity.
Qed.

Lemma Free_gives_back_witness :
  exists p3,
    Free false 1 (mkPool [mkLock false true; mkLock false true] 0 2) = Completed p3
    /\ freeFlags p3 = [false; true]
    /\ signalLen p3 = 1%nat.
Proof.
  destruct (Free_gives_back false (mkPool [mkLock false true; mkLock true false] 0 2))
    as (_ & _ & _ & H).
  destruct (H 1 (mkPool [mkLock false true; mkLock false false] 0 2)
              (mkPool [mkLock false true; mkLock false true] 0 2)
              eq_refl eq_refl) as (p3 & F & FL & _ & SL & _).
  - cbn. lia.
  - exists p3. split; [exact F|]. split; [exact FL | exact SL].
Defined.

End LockPoolUse.
